(** * sst fast-forward feature (src/fastforward.c): a shallow embedding

    The feature locates the engine's [Host_AccumulateTime] by walking x86
    machine code, hooks it, and lets a console command skip game time.

    Conventions of the embedding
    - the target is 32-bit x86: a pointer is an integer in [0, 2^32) and
      pointer arithmetic wraps ([ptr_add], [ptr_diff]);
    - process memory is a map from addresses to bytes; float objects live in
      a typed store of their own ([floats]);
    - C [float] is IEEE binary32, modelled with the standard library's
      [spec_float] (precision 24, emax 128);
    - every effect the code has on the outside world is an [event] appended
      to the [trace] of the [world];
    - a computation is a function [world -> option (A * world)]; [None]
      stands for a loop that has not finished within its fuel. *)

From Stdlib Require Import ZArith List String Bool Lia.
From Stdlib Require Import Floats.SpecFloat.
Import ListNotations.
Local Open Scope string_scope.
Local Open Scope list_scope.
Local Open Scope Z_scope.

(** ** Machine arithmetic *)

Definition wrap32 (z : Z) : Z := z mod 2 ^ 32.

(** The value of a 32-bit pattern read as a signed [int]. *)
Definition sint32 (z : Z) : Z := (z + 2 ^ 31) mod 2 ^ 32 - 2 ^ 31.

Definition ptr_add (p n : Z) : Z := wrap32 (p + n).

(** [p - q] on pointers, a signed 32-bit [ptrdiff_t]. *)
Definition ptr_diff (p q : Z) : Z := sint32 (p - q).

Definition NULL : Z := 0.

(** ** Floats *)

Definition float := spec_float.

Definition f32_prec : Z := 24.
Definition f32_emax : Z := 128.

Definition fzero : float := S754_zero false.

Definition fadd (x y : float) : float := SFadd f32_prec f32_emax x y.

(** [x > 0.]: the float is promoted to double (exactly) and compared. *)
Definition fpositive (x : float) : bool := SFltb fzero x.

(** The cast [(float)d] of a double: round to nearest even into binary32. *)
Definition float_of_double (d : spec_float) : float :=
  match d with
  | S754_finite s m e =>
      binary_normalize f32_prec f32_emax (cond_Zopp s (Zpos m)) e s
  | _ => d
  end.

(** ** The world *)

Definition memory := Z -> Z.

Inductive event : Type :=
| Read (a : Z)                       (* one byte of memory is read *)
| Errmsg (msg : string)              (* errmsg_errorx *)
| DecodeError (a : Z) (label : string)
| ConWarn (msg : string)             (* con_warn *)
| CallOrig (f : Z) (dt : float)      (* a call through a function pointer *)
| HookInline (func target : Z)       (* hook_inline(func, target) *)
| UnhookInline (orig : Z).           (* unhook_inline(orig) *)

Record world : Type := mkWorld {
  mem : memory;
  floats : Z -> float;
  realtime : Z;
  host_frametime : Z;
  orig_Host_AccumulateTime : Z;
  skiptime : float;
  trace : list event
}.

Definition set_floats (w : world) (f : Z -> float) : world :=
  mkWorld (mem w) f (realtime w) (host_frametime w)
          (orig_Host_AccumulateTime w) (skiptime w) (trace w).

Definition set_realtime (w : world) (p : Z) : world :=
  mkWorld (mem w) (floats w) p (host_frametime w)
          (orig_Host_AccumulateTime w) (skiptime w) (trace w).

Definition set_host_frametime (w : world) (p : Z) : world :=
  mkWorld (mem w) (floats w) (realtime w) p
          (orig_Host_AccumulateTime w) (skiptime w) (trace w).

Definition set_orig (w : world) (p : Z) : world :=
  mkWorld (mem w) (floats w) (realtime w) (host_frametime w)
          p (skiptime w) (trace w).

Definition set_skiptime (w : world) (v : float) : world :=
  mkWorld (mem w) (floats w) (realtime w) (host_frametime w)
          (orig_Host_AccumulateTime w) v (trace w).

Definition emit (w : world) (e : event) : world :=
  mkWorld (mem w) (floats w) (realtime w) (host_frametime w)
          (orig_Host_AccumulateTime w) (skiptime w) (trace w ++ [e]).

(** The initial values of the file's globals. *)
Definition boot (m : memory) (fl : Z -> float) : world :=
  mkWorld m fl NULL NULL NULL fzero [].

(** ** The monad of computations *)

Definition M (A : Type) : Type := world -> option (A * world).

Definition ret {A} (a : A) : M A := fun w => Some (a, w).

Definition bind {A B} (c : M A) (k : A -> M B) : M B :=
  fun w => match c w with
           | Some (a, w') => k a w'
           | None => None
           end.

Definition out_of_fuel {A} : M A := fun _ => None.

Definition get {A} (f : world -> A) : M A := fun w => Some (f w, w).

Definition modify (f : world -> world) : M unit := fun w => Some (tt, f w).

Definition log (e : event) : M unit := modify (fun w => emit w e).

Declare Scope prog_scope.
Delimit Scope prog_scope with prog.
Notation "x <- c ;; k" := (bind c (fun x => k))
  (at level 61, c at next level, right associativity) : prog_scope.
Notation "c ;; k" := (bind c (fun _ => k))
  (at level 61, right associativity) : prog_scope.
Local Open Scope prog_scope.

(** [p[0]], a [uchar]. *)
Definition load8 (p : Z) : M Z :=
  log (Read p) ;;
  m <- get mem ;;
  ret (m p mod 256).

(** Modelled from the spec: [mem_load32] of mem.h, which is not under src/;
    the spec's [read_u32_at]: four bytes, little-endian (the accessor
    [fld dword ptr [0x00ABCDEF]] embeds the bytes EF CD AB 00). *)
Definition mem_load32 (p : Z) : M Z :=
  b0 <- load8 p ;;
  b1 <- load8 (ptr_add p 1) ;;
  b2 <- load8 (ptr_add p 2) ;;
  b3 <- load8 (ptr_add p 3) ;;
  ret (Z.lor b0 (Z.lor (Z.shiftl b1 8)
                (Z.lor (Z.shiftl b2 16) (Z.shiftl b3 24)))).

(** Modelled from the spec: [mem_loadptr] of mem.h; on the 32-bit target a
    pointer is loaded as a 32-bit value. *)
Definition mem_loadptr (p : Z) : M Z := mem_load32 p.

(** Slot [idx] of the vtable of the object at [obj]: the vtable pointer is
    the object's first word, a slot is four bytes. *)
Definition vcall_slot (obj idx : Z) : M Z :=
  vt <- mem_loadptr obj ;;
  mem_loadptr (ptr_add vt (4 * idx)).

(** ** x86 opcodes *)

(** Modelled from the spec: the opcode constants of x86.h, which is not under
    src/. They are the Intel encodings of the instructions the spec names:
    the float load block (FLD), the near relative call, the move from memory
    into a register, and arithmetic with a sign-extended 8-bit immediate. *)
Definition X86_FLTBLK2 : Z := 0xD9.
Definition X86_CALL : Z := 0xE8.
Definition X86_MOVRMW : Z := 0x8B.
Definition X86_ALUMI8S : Z := 0x83.

(** Modelled from the spec: the macro [X86_MODRM(mod, reg, rm)] of x86.h,
    which packs the three fields of a ModRM byte. *)
Definition X86_MODRM (md reg rm : Z) : Z :=
  Z.lor (Z.shiftl md 6) (Z.lor (Z.shiftl reg 3) rm).

(** The scan window of [find_floatcall], in bytes. *)
Definition WINDOW : Z := 384.

(** The arguments of a console command, as the callback receives them. *)
Record con_cmdargs : Type := mkArgs {
  argc : Z;
  argv : list string
}.

(** The outcome of a locator loop of [find_Host_AccumulateTime]: it [break]s
    with a value, runs off its window, or [NEXT_INSN] returns from the
    function. *)
Inductive scan_result : Type :=
| Found (target : Z)
| NotFound
| Aborted.

Section Feature.

(** The instruction walker [x86_len] of x86.c (not under src/): the length
    of the instruction at [p], or -1 when it cannot size it. *)
Variable x86_len : memory -> Z -> Z.

(** The engine's interface factory and the gamedata vtable indices. *)
Variable factory_engine : string -> Z.
Variables vtidx_RunFrame vtidx_Frame : Z.
Variables vtidx_GetRealTime vtidx_HostFrameTime : Z.

(** libc's [atof]; the result is a double. *)
Variable atof : string -> spec_float.

(** What the engine code at an address does to the float objects when it
    is called with one float argument. *)
Variable engine_code : Z -> float -> (Z -> float) -> (Z -> float).

(** The address of [hook_Host_AccumulateTime] and the trampoline that
    [hook_inline] hands back. *)
Variable hook_addr : Z.
Variable hook_inline_result : Z -> Z -> Z.

Definition upd (f : Z -> float) (a : Z) (v : float) : Z -> float :=
  fun x => if x =? a then v else f x.

(** [*p += v] on a float object. *)
Definition float_add_at (p : Z) (v : float) : M unit :=
  modify (fun w => set_floats w (upd (floats w) p (fadd (floats w p) v))).

Definition call_float_fn (f : Z) (dt : float) : M unit :=
  log (CallOrig f dt) ;;
  modify (fun w => set_floats w (engine_code f dt (floats w))).

Definition hook_Host_AccumulateTime (dt : float) : M unit :=
  st <- get skiptime ;;
  if fpositive st then
    rt <- get realtime ;;
    st1 <- get skiptime ;;
    float_add_at rt st1 ;;
    hf <- get host_frametime ;;
    st2 <- get skiptime ;;
    float_add_at hf st2 ;;
    modify (fun w => set_skiptime w fzero)
  else
    orig <- get orig_Host_AccumulateTime ;;
    call_float_fn orig dt.

Definition sst_fastforward (cmd : con_cmdargs) : M unit :=
  if negb (argc cmd =? 2) then
    log (ConWarn "usage: sst_fastforward <time>")
  else
    modify (fun w =>
      set_skiptime w (float_of_double (atof (nth 1 (argv cmd) "")))).

Definition floatgetter (fn : Z) : M Z :=
  let inst := fn in
  b0 <- load8 inst ;;
  if negb (b0 =? X86_FLTBLK2) then ret NULL
  else
    b1 <- load8 (ptr_add inst 1) ;;
    if negb (b1 =? 0x05) then ret NULL
    else mem_loadptr (ptr_add inst 2).

(** Modelled from the spec: the macro [NEXT_INSN(p, tgt)] of x86util.h,
    which is not under src/. It advances [p] by the walker's length; when
    the walker cannot size the instruction it reports a decode error that
    carries the address and the caller's label, and the enclosing function
    returns false ([None] here). *)
Definition NEXT_INSN (p : Z) (tgt : string) : M (option Z) :=
  m <- get mem ;;
  let len := x86_len m p in
  if len =? -1 then log (DecodeError p tgt) ;; ret None
  else ret (Some (ptr_add p len)).

(** The loop of [find_floatcall]; falling out of it returns [NULL]. *)
Fixpoint floatcall_scan (fuel : nat) (ins : Z) (name : string)
    (p : Z) (nextcall : bool) : M Z :=
  if ptr_diff p ins <? 384 then
    match fuel with
    | O => out_of_fuel
    | S fuel' =>
        let next := fun nc : bool =>
          r <- NEXT_INSN p name ;;
          match r with
          | None => ret NULL
          | Some p' => floatcall_scan fuel' ins name p' nc
          end in
        b0 <- load8 p ;;
        arm <- (if b0 =? X86_FLTBLK2
                then b1 <- load8 (ptr_add p 1) ;; ret (Z.land b1 0x38 =? 0)
                else ret false) ;;
        if arm then next true
        else
          call <- (if nextcall
                   then b <- load8 p ;; ret (b =? X86_CALL)
                   else ret false) ;;
          if call then
            offset <- mem_load32 (ptr_add p 1) ;;
            m <- get mem ;;
            ret (ptr_add (ptr_add p (x86_len m p)) (sint32 offset))
          else next nextcall
    end
  else ret NULL.

Definition find_floatcall (fn : Z) (name : string) : M Z :=
  let ins := fn in
  floatcall_scan 384 ins name ins false.

(** The relative call at [p]: its target is relative to the end of the
    instruction. *)
Definition call_target (p : Z) : M Z :=
  offset <- mem_load32 (ptr_add p 1) ;;
  m <- get mem ;;
  ret (ptr_add (ptr_add p (x86_len m p)) (sint32 offset)).

(** Look for the thisptr load into ECX: [mov ecx, dword ptr [this]]. *)
Fixpoint eng_scan (fuel : nat) (ins p : Z) : M scan_result :=
  if ptr_diff p ins <? 32 then
    match fuel with
    | O => out_of_fuel
    | S fuel' =>
        b0 <- load8 p ;;
        hit <- (if b0 =? X86_MOVRMW
                then b1 <- load8 (ptr_add p 1) ;;
                     ret (b1 =? X86_MODRM 0 1 5)
                else ret false) ;;
        if hit then
          indirect <- mem_loadptr (ptr_add p 2) ;;
          eng <- mem_loadptr indirect ;;
          ret (Found eng)
        else
          r <- NEXT_INSN p "eng global object" ;;
          match r with
          | None => ret Aborted
          | Some p' => eng_scan fuel' ins p'
          end
    end
  else ret NotFound.

(** Search for the [cmp] with immediate 2 and then the next CALL. *)
Fixpoint hoststate_scan (fuel : nat) (ins p : Z) (nextcall : bool)
    : M scan_result :=
  if ptr_diff p ins <? 384 then
    match fuel with
    | O => out_of_fuel
    | S fuel' =>
        let next := fun nc : bool =>
          r <- NEXT_INSN p "HostState_Frame" ;;
          match r with
          | None => ret Aborted
          | Some p' => hoststate_scan fuel' ins p' nc
          end in
        b0 <- load8 p ;;
        arm <- (if b0 =? X86_ALUMI8S
                then b1 <- load8 (ptr_add p 1) ;;
                     if Z.land b1 0x38 =? X86_MODRM 0 7 0
                     then b2 <- load8 (ptr_add p 2) ;; ret (b2 =? 2)
                     else ret false
                else ret false) ;;
        if arm then next true
        else
          call <- (if nextcall
                   then b <- load8 p ;; ret (b =? X86_CALL)
                   else ret false) ;;
          if call then t <- call_target p ;; ret (Found t)
          else next nextcall
    end
  else ret NotFound.

(** HostState_Frame contains only another CALL. *)
Fixpoint frameupdate_scan (fuel : nat) (ins p : Z) : M scan_result :=
  if ptr_diff p ins <? 384 then
    match fuel with
    | O => out_of_fuel
    | S fuel' =>
        b0 <- load8 p ;;
        if b0 =? X86_CALL then t <- call_target p ;; ret (Found t)
        else
          r <- NEXT_INSN p "CHostState::FrameUpdate" ;;
          match r with
          | None => ret Aborted
          | Some p' => frameupdate_scan fuel' ins p'
          end
    end
  else ret NotFound.

(** The function that passes in the time argument: [fld dword ptr
    [ebp+8]] and then the next CALL. *)
Fixpoint accumulate_scan (fuel : nat) (ins p : Z) (nextcall : bool)
    : M scan_result :=
  if ptr_diff p ins <? 384 then
    match fuel with
    | O => out_of_fuel
    | S fuel' =>
        let next := fun nc : bool =>
          r <- NEXT_INSN p "Host_AccumulateTime" ;;
          match r with
          | None => ret Aborted
          | Some p' => accumulate_scan fuel' ins p' nc
          end in
        b0 <- load8 p ;;
        arm <- (if b0 =? X86_FLTBLK2
                then b1 <- load8 (ptr_add p 1) ;;
                     if b1 =? X86_MODRM 1 0 5
                     then b2 <- load8 (ptr_add p 2) ;; ret (b2 =? 8)
                     else ret false
                else ret false) ;;
        if arm then next true
        else
          call <- (if nextcall
                   then b <- load8 p ;; ret (b =? X86_CALL)
                   else ret false) ;;
          if call then t <- call_target p ;; ret (Found t)
          else next nextcall
    end
  else ret NotFound.

(** The value a scanned-for variable has after its loop: it keeps its
    initial [NULL] unless the loop assigned it. *)
Definition found_or_null (r : scan_result) : Z :=
  match r with Found t => t | _ => NULL end.

(** The last round: [_Host_RunFrame] down to [Host_AccumulateTime]. *)
Definition find_from_host_runframe (_host_runframe : Z) : M bool :=
  r <- accumulate_scan 384 _host_runframe _host_runframe false ;;
  match r with
  | Aborted => ret false
  | _ =>
      match r with
      | Found t => modify (fun w => set_orig w t)
      | _ => ret tt
      end ;;
      orig <- get orig_Host_AccumulateTime ;;
      if orig =? NULL then
        log (Errmsg "couldn't find Host_AccumulateTime") ;; ret false
      else ret true
  end.

(** The three float-call rounds below [CHostState::FrameUpdate]. *)
Definition find_from_frameupdate (frameupdate : Z) : M bool :=
  state_run <- find_floatcall frameupdate "CHostState::State_Run" ;;
  if state_run =? NULL then
    log (Errmsg "couldn't find State_Run") ;; ret false
  else
    host_runframe <- find_floatcall state_run "Host_RunFrame" ;;
    if host_runframe =? NULL then
      log (Errmsg "couldn't find Host_RunFrame") ;; ret false
    else
      _host_runframe <- find_floatcall host_runframe "_Host_RunFrame" ;;
      if _host_runframe =? NULL then
        log (Errmsg "couldn't find _Host_RunFrame") ;; ret false
      else find_from_host_runframe _host_runframe.

(** Everything after [runframe] has been read from the HLDS interface. *)
Definition find_from_runframe (runframe : Z) : M bool :=
  r1 <- eng_scan 32 runframe runframe ;;
  match r1 with
  | Aborted => ret false
  | _ =>
      let eng := found_or_null r1 in
      if eng =? NULL then
        log (Errmsg "couldn't find eng global object") ;; ret false
      else
        frame <- vcall_slot eng vtidx_Frame ;;
        r2 <- hoststate_scan 384 frame frame false ;;
        match r2 with
        | Aborted => ret false
        | _ =>
            let hoststate_frame := found_or_null r2 in
            if hoststate_frame =? NULL then
              log (Errmsg "couldn't find HostState_Frame") ;; ret false
            else
              r3 <- frameupdate_scan 384 hoststate_frame hoststate_frame ;;
              match r3 with
              | Aborted => ret false
              | _ =>
                  let frameupdate := found_or_null r3 in
                  if frameupdate =? NULL then
                    log (Errmsg "couldn't find frameupdate") ;; ret false
                  else find_from_frameupdate frameupdate
              end
        end
  end.

Definition find_Host_AccumulateTime : M bool :=
  let hldsapi := factory_engine "VENGINE_HLDS_API_VERSION002" in
  (if hldsapi =? NULL
   then log (Errmsg "missing hlds api interface")
   else ret tt) ;;
  runframe <- vcall_slot hldsapi vtidx_RunFrame ;;
  find_from_runframe runframe.

Definition PREINIT : M bool := ret true.

Definition INIT : M bool :=
  let enginetool := factory_engine "VENGINETOOL003" in
  if enginetool =? NULL then
    log (Errmsg "missing engine tool interface") ;; ret false
  else
    getrt <- vcall_slot enginetool vtidx_GetRealTime ;;
    rt <- floatgetter getrt ;;
    modify (fun w => set_realtime w rt) ;;
    gethf <- vcall_slot enginetool vtidx_HostFrameTime ;;
    hf <- floatgetter gethf ;;
    modify (fun w => set_host_frametime w hf) ;;
    ok <- find_Host_AccumulateTime ;;
    if negb ok then
      log (Errmsg "couldn't find Host_Accumulate") ;; ret false
    else
      orig <- get orig_Host_AccumulateTime ;;
      log (HookInline orig hook_addr) ;;
      modify (fun w => set_orig w (hook_inline_result orig hook_addr)) ;;
      ret true.

Definition END : M unit :=
  orig <- get orig_Host_AccumulateTime ;;
  log (UnhookInline orig).

End Feature.

(** ** The inline hook engine *)

Module HookEngine.

(** Modelled from the spec: the hook record of hook.c, which is not under
    src/. The spec's data model: the target address, the original bytes
    (as many as the transfer of control needs, rounded up to an
    instruction boundary), the trampoline address and the installed
    flag. *)
Record HookRecord : Type := mkHook {
  targetAddress : Z;
  originalBytes : list Z;
  trampolineAddress : Z;
  installed : bool
}.

(** The [n] memory cells from [p] on. *)
Definition read_bytes (m : memory) (p : Z) (n : nat) : list Z :=
  map (fun i => m (ptr_add p (Z.of_nat i))) (seq 0 n).

(** Memory [m] with the bytes [bs] stored from [p] on. *)
Definition write_bytes (m : memory) (p : Z) (bs : list Z) : memory :=
  fun a =>
    let i := wrap32 (a - p) in
    if i <? Z.of_nat (List.length bs) then nth (Z.to_nat i) bs 0 else m a.

Definition in_range (p : Z) (n : nat) (a : Z) : bool :=
  wrap32 (a - p) <? Z.of_nat n.

Section Engine.

Variable x86_len : memory -> Z -> Z.

(** The bytes of an unconditional transfer of control placed at the
    first address and going to the second. *)
Variable transfer : Z -> Z -> list Z.

(** Whether the region from an address on, of a given length, can be
    made writable. *)
Variable make_writable : Z -> nat -> bool.

(** Modelled from the spec: step 1 of install in hook.c (not under
    src/): the length to retain is found with the walker, instruction
    by instruction, until it covers the transfer of control. *)
Fixpoint retained_length (fuel : nat) (m : memory) (target : Z)
    (acc need : Z) : option Z :=
  if need <=? acc then Some acc
  else match fuel with
       | O => None
       | S fuel' =>
           let len := x86_len m (ptr_add target acc) in
           if len <? 1 then None
           else retained_length fuel' m target (acc + len) need
       end.

(** Modelled from the spec: [install(targetAddress, replacementAddress)]
    of hook.c (not under src/). It retains the original bytes, builds
    the trampoline (the retained bytes, then a jump back behind them),
    overwrites the entry of the target with a transfer to the
    replacement and marks the record installed. When the region cannot
    be made writable, or the walker cannot size the entry, it fails and
    leaves memory as it was. *)
Definition install (m : memory) (target replacement tramp : Z)
    : option (HookRecord * memory) :=
  let jmp := transfer target replacement in
  let need := Z.of_nat (List.length jmp) in
  if negb (make_writable target (List.length jmp)) then None
  else
    match retained_length (List.length jmp) m target 0 need with
    | None => None
    | Some n =>
        let orig := read_bytes m target (Z.to_nat n) in
        let back := transfer (ptr_add tramp n) (ptr_add target n) in
        let m1 := write_bytes m tramp (orig ++ back) in
        let m2 := write_bytes m1 target jmp in
        Some (mkHook target orig tramp true, m2)
    end.

(** Modelled from the spec: [uninstall(record)] of hook.c (not under
    src/). It restores the original bytes and marks the record
    uninstalled; on a record that is not installed it does nothing. *)
Definition uninstall (r : HookRecord) (m : memory)
    : HookRecord * memory :=
  if installed r then
    (mkHook (targetAddress r) (originalBytes r) (trampolineAddress r)
            false,
     write_bytes m (targetAddress r) (originalBytes r))
  else (r, m).

End Engine.

End HookEngine.

(** ** Instruction streams as the walker sees them *)

Section Streams.

Variable x86_len : memory -> Z -> Z.

(** The offset from [ins] of the instruction reached from offset [off]
    after [k] steps of the walker; [None] when the walker gives up on
    the way. *)
Fixpoint walk_from (m : memory) (ins off : Z) (k : nat) : option Z :=
  match k with
  | O => Some off
  | S k' =>
      let len := x86_len m (ptr_add ins off) in
      if len =? -1 then None else walk_from m ins (off + len) k'
  end.

(** The offset of instruction number [k] of the function at [ins]. *)
Definition insn_offset (m : memory) (ins : Z) (k : nat) : option Z :=
  walk_from m ins 0 k.

(** The arming idiom of [find_floatcall]: the FLD block with the reg
    field of the ModRM byte zero. *)
Definition is_arming (m : memory) (p : Z) : bool :=
  (m p mod 256 =? X86_FLTBLK2) &&
  (Z.land (m (ptr_add p 1) mod 256) 0x38 =? 0).

(** The confirming idiom: a near relative call. *)
Definition is_call (m : memory) (p : Z) : bool :=
  m p mod 256 =? X86_CALL.

(** The 32-bit little-endian value stored at [p]. *)
Definition le32_at (m : memory) (p : Z) : Z :=
  Z.lor (m p mod 256)
    (Z.lor (Z.shiftl (m (ptr_add p 1) mod 256) 8)
       (Z.lor (Z.shiftl (m (ptr_add p 2) mod 256) 16)
              (Z.shiftl (m (ptr_add p 3) mod 256) 24))).

(** The target of the relative call at offset [oc] of [ins]: the end of
    the instruction plus the signed displacement. *)
Definition call_target_at (m : memory) (ins oc : Z) : Z :=
  ptr_add (ptr_add (ptr_add ins oc) (x86_len m (ptr_add ins oc)))
          (sint32 (le32_at m (ptr_add (ptr_add ins oc) 1))).

(** The walker sizes every instruction, and none is longer than the 15
    bytes of the architecture. *)
Definition walker_ok : Prop :=
  forall m p, x86_len m p = -1 \/ 1 <= x86_len m p <= 15.

End Streams.

(** The bytes [bs] are in memory from [p] on. *)
Definition bytes_at (m : memory) (p : Z) (bs : list Z) : Prop :=
  forall i, (i < List.length bs)%nat ->
    m (ptr_add p (Z.of_nat i)) mod 256 = nth i bs 0.

(** The four bytes of a 32-bit value, least significant first. *)
Definition le32 (d : Z) : list Z :=
  [d mod 256; (d / 2 ^ 8) mod 256; (d / 2 ^ 16) mod 256; (d / 2 ^ 24) mod 256].

(** A computation returns [v] from [w]. *)
Definition returns {A} (c : M A) (w : world) (v : A) : Prop :=
  exists w', c w = Some (v, w').

(** The events a computation adds to the trace. *)
Definition events_of {A} (c : M A) (w : world) : list event :=
  match c w with
  | Some (_, w') => skipn (List.length (trace w)) (trace w')
  | None => []
  end.

(** [x <= 0] on floats. *)
Definition fnonpositive (x : float) : bool := SFleb x fzero.

(** ** Sample instances

    A small walker for the handful of encodings the sample streams use,
    and memories laid out from byte lists. *)

Definition sample_x86_len (m : memory) (p : Z) : Z :=
  let b0 := m p mod 256 in
  let b1 := m (ptr_add p 1) mod 256 in
  if b0 =? 0x90 then 1                        (* nop *)
  else if b0 =? 0xC3 then 1                   (* ret *)
  else if b0 =? 0x55 then 1                   (* push ebp *)
  else if b0 =? X86_CALL then 5               (* call rel32 *)
  else if b0 =? X86_FLTBLK2 then
    if b1 =? 0x05 then 6                      (* fld dword ptr [disp32] *)
    else if 0xC0 <=? b1 then 2                (* fld st(i) and the like *)
    else if b1 =? 0x45 then 3                 (* fld dword ptr [ebp+disp8] *)
    else -1
  else if b0 =? X86_MOVRMW then
    if b1 =? 0x0D then 6                      (* mov ecx, dword ptr [disp32] *)
    else if 0xC0 <=? b1 then 2
    else -1
  else if b0 =? X86_ALUMI8S then
    if 0xC0 <=? b1 then 3                     (* cmp reg, imm8 and the like *)
    else -1
  else -1.

(** The memory that holds the byte lists [segs] at their addresses and
    [dflt] everywhere else. *)
Definition layout (dflt : Z) (segs : list (Z * list Z)) : memory :=
  fun a =>
    fold_right
      (fun seg rest =>
         let i := a - fst seg in
         if (0 <=? i) && (i <? Z.of_nat (List.length (snd seg)))
         then nth (Z.to_nat i) (snd seg) 0
         else rest)
      dflt segs.

Definition no_floats : Z -> float := fun _ => fzero.

(** The float -1.0 and the float 2.5. *)
Definition f_minus_one : float := S754_finite true 8388608 (-23).
Definition f_two_and_half : float := S754_finite false 10485760 (-22).
Definition f_one : float := S754_finite false 8388608 (-23).

(** An engine function that adds its argument to the float at 0x5000. *)
Definition sample_engine_code (f : Z) (dt : float) (fl : Z -> float)
    : Z -> float :=
  upd fl 0x5000 (fadd (fl 0x5000) dt).

(** The accessor of the spec's scenario: [fld dword ptr [0x00ABCDEF]; ret]
    at address 0x1000. *)
Definition accessor_world : world :=
  boot (layout 0 [(0x1000, [0xD9; 0x05; 0xEF; 0xCD; 0xAB; 0x00; 0xC3])])
       no_floats.

(** A world in the middle of a game: the two tracked scalars are the floats
    at 0x5000 and 0x5004, the original function is at 0x7000. *)
Definition game_world (pending : float) : world :=
  mkWorld (layout 0 []) (upd (upd no_floats 0x5000 f_one) 0x5004 f_one)
          0x5000 0x5004 0x7000 pending [].

Definition one_arg (s : string) : con_cmdargs :=
  mkArgs 2 ["sst_fastforward"; s].

(** A stand-in for [atof] that knows two inputs. *)
Definition sample_atof (s : string) : spec_float :=
  if String.eqb s "2.5" then f_two_and_half
  else if String.eqb s "-1" then f_minus_one
  else fzero.

(** A five-byte relative jump, and a region that can always be patched. *)
Definition sample_transfer (from to : Z) : list Z :=
  0xE9 :: le32 (wrap32 (to - (from + 5))).

Definition always_writable (p : Z) (n : nat) : bool := true.

(** A function at 0x7000 that starts with [push ebp; mov ebp, esp;
    sub esp, 8]. *)
Definition target_memory : memory :=
  layout 0x90 [(0x7000, [0x55; 0x8B; 0xEC; 0x83; 0xEC; 0x08; 0xC3])].

(** The record and the memory an install of a hook on it, with the
    trampoline at 0x8000 and the replacement at 0x9000, is expected to
    leave. *)
Definition sample_hook : HookEngine.HookRecord :=
  HookEngine.mkHook 0x7000 (HookEngine.read_bytes target_memory 0x7000 6)
                    0x8000 true.

Definition hooked_memory : memory :=
  HookEngine.write_bytes
    (HookEngine.write_bytes target_memory 0x8000
       (HookEngine.read_bytes target_memory 0x7000 6 ++
        sample_transfer (ptr_add 0x8000 6) (ptr_add 0x7000 6)))
    0x7000 (sample_transfer 0x7000 0x9000).

(** [w1] is [w] after some more events, all of whose reads satisfy [ok]. *)
Definition grows (ok : Z -> Prop) (w w1 : world) : Prop :=
  mem w1 = mem w /\
  exists new, trace w1 = trace w ++ new /\
              forall a, In (Read a) new -> ok a.

(** The bytes of the instruction at [p] that the locator may look at. *)
Definition near (p : Z) (a : Z) : Prop :=
  exists d, 0 <= d <= 4 /\ a = ptr_add p d.

(** The bytes the scan of [find_floatcall] may read: those of the
    instructions that start inside the window, up to the end of a call's
    displacement. *)
Definition within_reach (ins a : Z) : Prop :=
  exists o, 0 <= o < WINDOW + 4 /\ a = ptr_add ins o.

(** The value a computation returns, when it returns. *)
Definition value_of {A} (c : M A) (w : world) : option A :=
  option_map fst (c w).

(** Whether the byte at [a] is read in a list of events. *)
Definition reads_byte (a : Z) (evs : list event) : bool :=
  existsb (fun e => match e with Read b => b =? a | _ => false end) evs.

(** A function at 0x1000: [fld st(0); nop; call +0x10]. *)
Definition floatcall_memory : memory :=
  layout 0x90 [(0x1000, [0xD9; 0xC0; 0x90; 0xE8; 0x10; 0x00; 0x00; 0x00])].

(** A function at 0x1000 that loads a float and then never calls. *)
Definition nocall_memory : memory :=
  layout 0x90 [(0x1000, [0xD9; 0xC0])].

(** A function at 0x1000 whose call starts on the last byte of the
    window: [fld st(0)], 381 [nop]s, [call +0x10] at offset 383. *)
Definition far_call_memory : memory :=
  layout 0x90 [(0x1000, [0xD9; 0xC0]);
               (0x1000 + 383, [0xE8; 0x10; 0x00; 0x00; 0x00])].

(** The events other than reads. *)
Definition effects (evs : list event) : list event :=
  filter (fun e => match e with Read _ => false | _ => true end) evs.

(** The world a computation leaves, when it returns. *)
Definition final_of {A} (c : M A) (w : world) : option world :=
  option_map snd (c w).

(** ** A sample engine

    The two interfaces, their vtables, and the chain of functions from
    [CDedicatedServerAPI::RunFrame] down to [Host_AccumulateTime] at
    0x7000. The accessor of [realtime] is a parameter: the engine either
    has the expected [fld dword ptr [0x5000]; ret] or some other code. *)

Definition good_getter : list Z := [0xD9; 0x05] ++ le32 0x5000 ++ [0xC3].

(** [push ebp; mov ebp, esp; ...]: an accessor of another shape. *)
Definition other_getter : list Z := [0x55; 0x8B; 0xEC; 0xD9; 0x45; 0x08; 0xC3].

Definition engine_memory (getrealtime : list Z) : memory :=
  layout 0x00
    [ (0x2000, le32 0x2100);                       (* engine tool object *)
      (0x2100, le32 0x3000 ++ le32 0x3010);        (* its vtable *)
      (0x3000, getrealtime);                       (* GetRealTime *)
      (0x3010, [0xD9; 0x05] ++ le32 0x5004 ++ [0xC3]);  (* HostFrameTime *)
      (0x2200, le32 0x2300);                       (* HLDS api object *)
      (0x2300, le32 0x4000);                       (* its vtable *)
      (0x4000, [0x8B; 0x0D] ++ le32 0x2400 ++ [0xC3]);  (* RunFrame *)
      (0x2400, le32 0x2500);                       (* the eng global *)
      (0x2500, le32 0x2600);                       (* the CEngine object *)
      (0x2600, le32 0x4100);                       (* its vtable *)
      (0x4100, [0x83; 0xF8; 0x02; 0xE8] ++ le32 0xF8);  (* Frame *)
      (0x4200, [0xE8] ++ le32 0xFB);               (* HostState_Frame *)
      (0x4300, [0xD9; 0xC0; 0xE8] ++ le32 0xF9);   (* FrameUpdate *)
      (0x4400, [0xD9; 0xC0; 0xE8] ++ le32 0xF9);   (* State_Run *)
      (0x4500, [0xD9; 0xC0; 0xE8] ++ le32 0xF9);   (* Host_RunFrame *)
      (0x4600, [0xD9; 0x45; 0x08; 0xE8] ++ le32 0x29F8); (* _Host_RunFrame *)
      (0x7000, [0x55; 0x8B; 0xEC; 0x83; 0xEC; 0x08; 0xC3]) ].

(** An engine that has both interfaces, and one without the HLDS api, and
    one without the engine tool. *)
Definition full_factory (name : string) : Z :=
  if String.eqb name "VENGINETOOL003" then 0x2000
  else if String.eqb name "VENGINE_HLDS_API_VERSION002" then 0x2200
  else NULL.

Definition factory_without_hlds (name : string) : Z :=
  if String.eqb name "VENGINETOOL003" then 0x2000 else NULL.

Definition factory_without_tool (name : string) : Z :=
  if String.eqb name "VENGINE_HLDS_API_VERSION002" then 0x2200 else NULL.

(** [INIT] in the sample engine: all vtable indices are 0, but that of
    [HostFrameTime], which is 1; the hook is at 0x6000 and [hook_inline]
    hands back the trampoline 0x8001. *)
Definition sample_INIT (factory : string -> Z) : M bool :=
  INIT sample_x86_len factory 0 0 0 1 0x6000 (fun _ _ => 0x8001).

Definition sample_find_Host_AccumulateTime (factory : string -> Z) : M bool :=
  find_Host_AccumulateTime sample_x86_len factory 0 0.

(** ** What a computation may change *)

(** The events of a scan: reads, error messages and decode errors. *)
Definition scan_event (e : event) : Prop :=
  match e with
  | Read _ | Errmsg _ | DecodeError _ _ => True
  | _ => False
  end.

(** The events that report a failure to the user. *)
Definition failure_event (e : event) : Prop :=
  match e with
  | Errmsg _ | DecodeError _ _ => True
  | _ => False
  end.

(** [w'] has the trace of [w] followed by events that satisfy [P]. *)
Definition logs (P : event -> Prop) (w w' : world) : Prop :=
  exists new, trace w' = trace w ++ new /\ Forall P new.

(** [w'] is [w] after a scan: the trace aside, nothing has changed. *)
Definition reads_only (w w' : world) : Prop :=
  mem w' = mem w /\
  floats w' = floats w /\
  realtime w' = realtime w /\
  host_frametime w' = host_frametime w /\
  orig_Host_AccumulateTime w' = orig_Host_AccumulateTime w /\
  skiptime w' = skiptime w /\
  logs scan_event w w'.

(** As [reads_only], but [orig_Host_AccumulateTime] may have been
    assigned. *)
Definition locates_only (w w' : world) : Prop :=
  mem w' = mem w /\
  floats w' = floats w /\
  realtime w' = realtime w /\
  host_frametime w' = host_frametime w /\
  skiptime w' = skiptime w /\
  logs scan_event w w'.

(** Since [w], scan events have been logged and the last of them reports
    a failure. *)
Definition reports (w w' : world) : Prop :=
  exists evs e,
    trace w' = trace w ++ evs ++ [e] /\
    Forall scan_event evs /\ failure_event e.

(** Every result of [c] satisfies [Q], which relates the world before,
    the value and the world after. *)
Definition ensures {A} (c : M A) (Q : world -> A -> world -> Prop) : Prop :=
  forall w v w', c w = Some (v, w') -> Q w v w'.

(** The host's frame loop, as far as this feature sees it: one call of the
    hooked function per frame, with that frame's [dt]. *)
Fixpoint run_frames
    (engine_code : Z -> float -> (Z -> float) -> (Z -> float))
    (dts : list float) : M unit :=
  match dts with
  | [] => ret tt
  | dt :: rest =>
      hook_Host_AccumulateTime engine_code dt ;;
      run_frames engine_code rest
  end.

(** What a locator round of [find_Host_AccumulateTime] guarantees: only
    [orig_Host_AccumulateTime] and the trace may have changed; a failure
    has been reported; a success has left a pointer that is not null. *)
Definition located (w : world) (ok : bool) (w' : world) : Prop :=
  locates_only w w' /\
  (ok = false -> reports w w') /\
  (ok = true -> orig_Host_AccumulateTime w' <> NULL).

(** [w'] is [w] after an initialisation: memory, the floats and the
    pending skip are as they were, and scan events have been logged. *)
Definition inits_only (w w' : world) : Prop :=
  mem w' = mem w /\
  floats w' = floats w /\
  skiptime w' = skiptime w /\
  logs scan_event w w'.

(** What [INIT] guarantees. On failure the events it has logged are reads
    and errors, the last one an error: no hook has been installed. On
    success the last event is the one call of [hook_inline], on a target
    that is not null, and [orig_Host_AccumulateTime] holds what that call
    returned. *)
Definition initialised (hook_addr : Z) (hook_inline_result : Z -> Z -> Z)
    (w : world) (ok : bool) (w' : world) : Prop :=
  mem w' = mem w /\
  floats w' = floats w /\
  skiptime w' = skiptime w /\
  (ok = false -> reports w w') /\
  (ok = true ->
   exists evs target,
     trace w' = trace w ++ evs ++ [HookInline target hook_addr] /\
     Forall scan_event evs /\
     target <> NULL /\
     orig_Host_AccumulateTime w' = hook_inline_result target hook_addr).

(** The idioms the rounds of [find_Host_AccumulateTime] look for. *)






Definition is_read (e : event) : Prop :=
  match e with Read _ => True | _ => False end.

(** The log of a scan labelled [name] that returned [v]: reads only, or
    reads and then one decode error, with the label [name] and the address
    of an instruction the walker cannot size; in the second case the scan
    has returned [NULL]. *)
Definition scan_log (x86_len : memory -> Z -> Z) (name : string) (v : Z)
    (w w' : world) : Prop :=
  exists reads,
    Forall is_read reads /\
    (trace w' = trace w ++ reads \/
     v = NULL /\
     exists a, x86_len (mem w) a = -1 /\
               trace w' = trace w ++ reads ++ [DecodeError a name]).

(** A world in which both accessors have yielded the same float, at
    0x5000. *)
Definition alias_world (pending : float) : world :=
  mkWorld (layout 0 []) (upd no_floats 0x5000 f_one)
          0x5000 0x5000 0x7000 pending [].

(** A memory of zero bytes, which the sample walker cannot size. *)
Definition blank_memory : memory := layout 0x00 [].

(** What the original function has done to the floats after the frames
    [dts]. *)
Definition after_frames
    (engine_code : Z -> float -> (Z -> float) -> (Z -> float))
    (orig : Z) (dts : list float) (fl : Z -> float) : Z -> float :=
  fold_left (fun fl dt => engine_code orig dt fl) dts fl.

(** The floats after the hook has applied the skip [v]. *)
Definition skipped (w : world) (v : float) : Z -> float :=
  let fl := upd (floats w) (realtime w) (fadd (floats w (realtime w)) v) in
  upd fl (host_frametime w) (fadd (fl (host_frametime w)) v).





(** Runs the monadic primitives of a program applied to a world. *)
Ltac run_prog :=
  cbv beta iota zeta
      delta [bind load8 log modify get ret NEXT_INSN mem_load32];
  cbn [mem emit].

(** * Properties *)

(** ** Machine arithmetic *)

Lemma wrap32_range z : 0 <= wrap32 z < 2 ^ 32.
Proof. unfold wrap32. apply Z.mod_pos_bound. reflexivity. Qed.

Lemma wrap32_small z : 0 <= z < 2 ^ 32 -> wrap32 z = z.
Proof. intros H. unfold wrap32. now apply Z.mod_small. Qed.

Lemma ptr_add_0 p : 0 <= p < 2 ^ 32 -> ptr_add p 0 = p.
Proof. intros H. unfold ptr_add. rewrite Z.add_0_r. now apply wrap32_small. Qed.

Lemma ptr_add_add p a b : ptr_add (ptr_add p a) b = ptr_add p (a + b).
Proof.
  unfold ptr_add, wrap32.
  rewrite Zplus_mod_idemp_l. f_equal. lia.
Qed.

Lemma ptr_diff_add ins off :
  -2 ^ 31 <= off < 2 ^ 31 -> ptr_diff (ptr_add ins off) ins = off.
Proof.
  intros H. unfold ptr_diff, ptr_add, sint32, wrap32.
  replace ((ins + off) mod 2 ^ 32 - ins + 2 ^ 31)
    with ((ins + off) mod 2 ^ 32 + (2 ^ 31 - ins)) by lia.
  rewrite Zplus_mod_idemp_l.
  replace (ins + off + (2 ^ 31 - ins)) with (off + 2 ^ 31) by lia.
  rewrite Z.mod_small; lia.
Qed.

Lemma ptr_diff_self p : ptr_diff p p = 0.
Proof. unfold ptr_diff, sint32. now rewrite Z.sub_diag. Qed.

Lemma byte_mod_testbit x n : 8 <= n -> Z.testbit (x mod 256) n = false.
Proof.
  intros H. change 256 with (2 ^ 8).
  apply Z.mod_pow2_bits_high. lia.
Qed.

(** Reassembling the four bytes of a 32-bit value gives the value back. *)
Lemma le32_decode d :
  0 <= d < 2 ^ 32 ->
  Z.lor (d mod 256)
    (Z.lor (Z.shiftl ((d / 2 ^ 8) mod 256) 8)
       (Z.lor (Z.shiftl ((d / 2 ^ 16) mod 256) 16)
              (Z.shiftl ((d / 2 ^ 24) mod 256) 24))) = d.
Proof.
  intros H.
  apply Z.bits_inj'. intros n Hn.
  rewrite !Z.lor_spec, !Z.shiftl_spec by assumption.
  change 256 with (2 ^ 8).
  destruct (Z.lt_ge_cases n 8) as [H8 | H8].
  { rewrite Z.mod_pow2_bits_low by lia.
    rewrite (Z.testbit_neg_r _ (n - 8)), (Z.testbit_neg_r _ (n - 16)),
      (Z.testbit_neg_r _ (n - 24)) by lia.
    now rewrite !orb_false_r. }
  rewrite (Z.mod_pow2_bits_high d 8 n) by lia.
  destruct (Z.lt_ge_cases n 16) as [H16 | H16].
  { rewrite Z.mod_pow2_bits_low by lia.
    rewrite Z.div_pow2_bits by lia.
    rewrite (Z.testbit_neg_r _ (n - 16)), (Z.testbit_neg_r _ (n - 24)) by lia.
    rewrite !orb_false_r. cbn [orb]. f_equal. lia. }
  rewrite (Z.mod_pow2_bits_high _ 8 (n - 8)) by lia.
  destruct (Z.lt_ge_cases n 24) as [H24 | H24].
  { rewrite Z.mod_pow2_bits_low by lia.
    rewrite Z.div_pow2_bits by lia.
    rewrite (Z.testbit_neg_r _ (n - 24)) by lia.
    rewrite !orb_false_r. cbn [orb]. f_equal. lia. }
  rewrite (Z.mod_pow2_bits_high _ 8 (n - 16)) by lia.
  cbn [orb].
  destruct (Z.lt_ge_cases n 32) as [H32 | H32].
  { rewrite Z.mod_pow2_bits_low by lia.
    rewrite Z.div_pow2_bits by lia.
    f_equal. lia. }
  rewrite (Z.mod_pow2_bits_high _ 8 (n - 24)) by lia.
  symmetry. apply Z.bits_above_log2; [lia |].
  destruct (Z.eq_dec d 0) as [-> | Hd]; [cbn; lia |].
  assert (Z.log2 d < 32) by (apply Z.log2_lt_pow2; lia).
  lia.
Qed.

(** ** Running the primitives *)

Lemma load8_run p w :
  load8 p w = Some (mem w p mod 256, emit w (Read p)).
Proof. reflexivity. Qed.

Lemma mem_load32_run p w :
  mem_load32 p w =
  Some (le32_at (mem w) p,
        emit (emit (emit (emit w (Read p)) (Read (ptr_add p 1)))
                   (Read (ptr_add p 2))) (Read (ptr_add p 3))).
Proof. reflexivity. Qed.

Lemma bytes_at_nth m p bs i :
  bytes_at m p bs -> (i < List.length bs)%nat ->
  m (ptr_add p (Z.of_nat i)) mod 256 = nth i bs 0.
Proof. intros H Hi. now apply H. Qed.

(** ** The global scalar extractor *)

(** C2. For every byte sequence that starts with the load-global-float
    idiom (opcode 0xD9, ModRM 0x05) followed by the four bytes of the
    absolute operand [d], [floatgetter] returns exactly [d]; for every
    byte sequence whose first byte is another opcode, or whose second
    byte is another addressing mode, it returns [NULL]. *)
Theorem floatgetter_extracts_operand (w : world) (fn : Z) :
  0 <= fn < 2 ^ 32 ->
  (forall d rest,
      0 <= d < 2 ^ 32 ->
      bytes_at (mem w) fn ([X86_FLTBLK2; 0x05] ++ le32 d ++ rest) ->
      returns (floatgetter fn) w d) /\
  (mem w fn mod 256 <> X86_FLTBLK2 \/ mem w (ptr_add fn 1) mod 256 <> 0x05 ->
   returns (floatgetter fn) w NULL).
Proof.
  intros Hfn. split.
  - intros d rest Hd Hb.
    pose proof (bytes_at_nth _ _ _ 0%nat Hb) as B0.
    pose proof (bytes_at_nth _ _ _ 1%nat Hb) as B1.
    pose proof (bytes_at_nth _ _ _ 2%nat Hb) as B2.
    pose proof (bytes_at_nth _ _ _ 3%nat Hb) as B3.
    pose proof (bytes_at_nth _ _ _ 4%nat Hb) as B4.
    pose proof (bytes_at_nth _ _ _ 5%nat Hb) as B5.
    unfold le32 in B0, B1, B2, B3, B4, B5.
    cbn [List.length app nth Z.of_nat Pos.of_succ_nat Pos.succ] in *.
    rewrite ptr_add_0 in B0 by assumption.
    specialize (B0 ltac:(lia)). specialize (B1 ltac:(lia)).
    specialize (B2 ltac:(lia)). specialize (B3 ltac:(lia)).
    specialize (B4 ltac:(lia)). specialize (B5 ltac:(lia)).
    unfold returns, floatgetter, bind at 1.
    rewrite load8_run, B0. cbn [negb Z.eqb X86_FLTBLK2 Pos.eqb].
    unfold bind at 1. rewrite load8_run. cbn [mem emit].
    rewrite B1. cbn [negb Z.eqb Pos.eqb].
    unfold mem_loadptr. rewrite mem_load32_run.
    eexists. f_equal. f_equal.
    unfold le32_at. cbn [mem emit]. rewrite !ptr_add_add.
    cbn [Z.add Pos.add Pos.succ].
    rewrite B2, B3, B4, B5. now apply le32_decode.
  - intros Hne.
    unfold returns, floatgetter, bind at 1. rewrite load8_run.
    destruct (Z.eqb_spec (mem w fn mod 256) X86_FLTBLK2) as [E0 | E0];
      cbn [negb]; [| eexists; reflexivity].
    unfold bind at 1. rewrite load8_run. cbn [mem emit].
    destruct (Z.eqb_spec (mem w (ptr_add fn 1) mod 256) 5) as [E1 | E1];
      cbn [negb]; [| eexists; reflexivity].
    destruct Hne; contradiction.
Qed.

(** The scenario of the spec: the accessor [fld dword ptr [0x00ABCDEF];
    ret] yields 0x00ABCDEF, and a function that starts with [ret] yields
    [NULL]. *)
Lemma floatgetter_extracts_operand_witness :
  returns (floatgetter 0x1000) accessor_world 0x00ABCDEF /\
  returns (floatgetter 0x1006) accessor_world NULL.
Proof.
  split.
  - apply (proj1 (floatgetter_extracts_operand accessor_world 0x1000
                    ltac:(now vm_compute)) 0x00ABCDEF [0xC3]).
    + now vm_compute.
    + intros i Hi. cbn in Hi.
      do 7 (destruct i as [| i]; [now vm_compute |]). lia.
  - apply (proj2 (floatgetter_extracts_operand accessor_world 0x1006
                    ltac:(now vm_compute))).
    left. now vm_compute.
Defined.

(** ** The hook callback and the command *)

Section CallbackFacts.

Variable engine_code : Z -> float -> (Z -> float) -> (Z -> float).

Let hook := hook_Host_AccumulateTime engine_code.

(** What a frame with a positive pending skip does. *)
Lemma hook_skip_run dt w :
  fpositive (skiptime w) = true ->
  hook dt w =
  Some (tt,
        set_skiptime
          (set_floats w
             (upd (upd (floats w) (realtime w)
                       (fadd (floats w (realtime w)) (skiptime w)))
                  (host_frametime w)
                  (fadd (upd (floats w) (realtime w)
                             (fadd (floats w (realtime w)) (skiptime w))
                             (host_frametime w))
                        (skiptime w))))
          fzero).
Proof.
  intros Hpos. unfold hook, hook_Host_AccumulateTime, bind at 1.
  cbn [get]. rewrite Hpos. reflexivity.
Qed.

(** What a frame without a positive pending skip does. *)
Lemma hook_passthrough_run dt w :
  fpositive (skiptime w) = false ->
  hook dt w =
  Some (tt,
        set_floats (emit w (CallOrig (orig_Host_AccumulateTime w) dt))
          (engine_code (orig_Host_AccumulateTime w) dt (floats w))).
Proof.
  intros Hpos. unfold hook, hook_Host_AccumulateTime, bind at 1.
  cbn [get]. rewrite Hpos. reflexivity.
Qed.

Lemma fnonpositive_not_positive x :
  fnonpositive x = true -> fpositive x = false.
Proof.
  unfold fnonpositive, fpositive, SFleb, SFltb, fzero.
  destruct x as [s | s | | s m e]; try destruct s; cbn; congruence.
Qed.

Lemma fzero_not_positive : fpositive fzero = false.
Proof. reflexivity. Qed.

Lemma upd_same f a v : upd f a v a = v.
Proof. unfold upd. now rewrite Z.eqb_refl. Qed.

Lemma upd_other f a v x : x <> a -> upd f a v x = f x.
Proof.
  intros H. unfold upd. destruct (Z.eqb_spec x a); [contradiction | easy].
Qed.

End CallbackFacts.

(** C5, amended. For every value [V] greater than zero: once the pending
    skip is [V], the next run of the hook adds [V] once to the float behind
    [realtime] and once to the float behind [host_frametime] (two distinct
    objects), touches no other float, does not call the original function
    and resets the pending skip to zero; the run after that, with no new
    request in between, only calls the original function and adds nothing
    of [V]. *)
Theorem positive_skip_consumed_once
    (engine_code : Z -> float -> (Z -> float) -> (Z -> float))
    (w : world) (V dt1 dt2 : float) :
  skiptime w = V ->
  fpositive V = true ->
  realtime w <> host_frametime w ->
  exists w1 w2,
    hook_Host_AccumulateTime engine_code dt1 w = Some (tt, w1) /\
    floats w1 (realtime w) = fadd (floats w (realtime w)) V /\
    floats w1 (host_frametime w) = fadd (floats w (host_frametime w)) V /\
    (forall a, a <> realtime w -> a <> host_frametime w ->
               floats w1 a = floats w a) /\
    skiptime w1 = fzero /\
    trace w1 = trace w /\
    hook_Host_AccumulateTime engine_code dt2 w1 = Some (tt, w2) /\
    floats w2 = engine_code (orig_Host_AccumulateTime w) dt2 (floats w1) /\
    skiptime w2 = fzero /\
    trace w2 = trace w ++ [CallOrig (orig_Host_AccumulateTime w) dt2].
Proof.
  intros HV Hpos Hne. subst V.
  eexists. eexists.
  split; [now apply hook_skip_run |].
  cbn [floats skiptime trace set_skiptime set_floats].
  split; [| split; [| split; [| split; [| split]]]].
  - rewrite upd_other by assumption. apply upd_same.
  - rewrite upd_same, upd_other by congruence. reflexivity.
  - intros a Ha1 Ha2. now rewrite !upd_other by assumption.
  - reflexivity.
  - reflexivity.
  - rewrite hook_passthrough_run by reflexivity.
    split; [reflexivity |].
    cbn [floats skiptime trace set_skiptime set_floats emit
         orig_Host_AccumulateTime].
    repeat split.
Qed.

Lemma positive_skip_consumed_once_witness :
  exists w1 w2,
    hook_Host_AccumulateTime sample_engine_code f_one
      (game_world f_two_and_half) = Some (tt, w1) /\
    floats w1 0x5000 = fadd f_one f_two_and_half /\
    floats w1 0x5004 = fadd f_one f_two_and_half /\
    (forall a, a <> 0x5000 -> a <> 0x5004 ->
               floats w1 a = floats (game_world f_two_and_half) a) /\
    skiptime w1 = fzero /\
    trace w1 = [] /\
    hook_Host_AccumulateTime sample_engine_code f_one w1 = Some (tt, w2) /\
    floats w2 = sample_engine_code 0x7000 f_one (floats w1) /\
    skiptime w2 = fzero /\
    trace w2 = [CallOrig 0x7000 f_one].
Proof.
  apply (positive_skip_consumed_once sample_engine_code
           (game_world f_two_and_half) f_two_and_half f_one f_one).
  - reflexivity.
  - reflexivity.
  - cbn. discriminate.
Defined.

(** C5 as stated fails for a value that is not positive: with -1.0 pending
    the hook neither adds the value to [host_frametime] nor resets it. *)
Lemma negative_skip_not_consumed :
  exists w1,
    hook_Host_AccumulateTime sample_engine_code f_one
      (game_world f_minus_one) = Some (tt, w1) /\
    skiptime w1 <> fzero /\
    floats w1 0x5004 <> fadd (floats (game_world f_minus_one) 0x5004)
                             f_minus_one.
Proof.
  eexists. split; [reflexivity |].
  split; vm_compute; discriminate.
Qed.

(** C7. The pending skip is overwritten, not accumulated: after two
    commands with one argument each and no frame in between, it is the
    value of the second argument. *)
Theorem second_request_overwrites_first
    (atof : string -> spec_float) (w : world) (cmd1 cmd2 : con_cmdargs) :
  argc cmd1 = 2 ->
  argc cmd2 = 2 ->
  exists w1 w2,
    sst_fastforward atof cmd1 w = Some (tt, w1) /\
    skiptime w1 = float_of_double (atof (nth 1 (argv cmd1) "")) /\
    sst_fastforward atof cmd2 w1 = Some (tt, w2) /\
    skiptime w2 = float_of_double (atof (nth 1 (argv cmd2) "")).
Proof.
  intros H1 H2. unfold sst_fastforward. rewrite H1, H2.
  cbn [Z.eqb Pos.eqb negb].
  eexists. eexists. repeat split.
Qed.

Lemma second_request_overwrites_first_witness :
  exists w1 w2,
    sst_fastforward sample_atof (one_arg "-1") (game_world fzero)
      = Some (tt, w1) /\
    skiptime w1 = float_of_double (sample_atof "-1") /\
    sst_fastforward sample_atof (one_arg "2.5") w1 = Some (tt, w2) /\
    skiptime w2 = float_of_double (sample_atof "2.5").
Proof.
  apply (second_request_overwrites_first sample_atof (game_world fzero)
           (one_arg "-1") (one_arg "2.5")); reflexivity.
Defined.

(** C8. With an argument count other than one (argc other than 2, the
    command name included) the command only prints its usage message: the
    pending skip and everything else stay as they were and no error of the
    initialisation is reported. With exactly one argument the pending skip
    becomes the value of that argument, converted by [atof] and cast to
    float. *)
Theorem fastforward_argument_count
    (atof : string -> spec_float) (w : world) (cmd : con_cmdargs) :
  (argc cmd <> 2 ->
   sst_fastforward atof cmd w =
   Some (tt, emit w (ConWarn "usage: sst_fastforward <time>"))) /\
  (argc cmd = 2 ->
   sst_fastforward atof cmd w =
   Some (tt, set_skiptime w
               (float_of_double (atof (nth 1 (argv cmd) ""))))).
Proof.
  unfold sst_fastforward. split; intros H.
  - destruct (Z.eqb_spec (argc cmd) 2); [contradiction | reflexivity].
  - rewrite H. reflexivity.
Qed.

Lemma fastforward_argument_count_witness :
  sst_fastforward sample_atof (mkArgs 1 ["sst_fastforward"])
    (game_world f_one) =
  Some (tt, emit (game_world f_one)
              (ConWarn "usage: sst_fastforward <time>")) /\
  sst_fastforward sample_atof (one_arg "2.5") (game_world f_one) =
  Some (tt, set_skiptime (game_world f_one)
              (float_of_double (sample_atof "2.5"))).
Proof.
  split.
  - apply (proj1 (fastforward_argument_count sample_atof (game_world f_one)
                    (mkArgs 1 ["sst_fastforward"]))).
    cbn. discriminate.
  - apply (proj2 (fastforward_argument_count sample_atof (game_world f_one)
                    (one_arg "2.5"))).
    reflexivity.
Defined.

(** C9. Whenever the hook runs with a positive pending skip it does not
    call the original function: no call is added to the trace, the result
    is the same for every [dt], and the only floats that change are the two
    tracked scalars, each by the addition of the skip. *)
Theorem applied_skip_discards_dt
    (engine_code : Z -> float -> (Z -> float) -> (Z -> float))
    (w : world) (dt : float) :
  fpositive (skiptime w) = true ->
  exists w',
    hook_Host_AccumulateTime engine_code dt w = Some (tt, w') /\
    trace w' = trace w /\
    (forall dt', hook_Host_AccumulateTime engine_code dt' w = Some (tt, w')) /\
    floats w' =
      upd (upd (floats w) (realtime w)
               (fadd (floats w (realtime w)) (skiptime w)))
          (host_frametime w)
          (fadd (upd (floats w) (realtime w)
                     (fadd (floats w (realtime w)) (skiptime w))
                     (host_frametime w))
                (skiptime w)) /\
    (forall a, a <> realtime w -> a <> host_frametime w ->
               floats w' a = floats w a).
Proof.
  intros Hpos. eexists.
  split; [now apply hook_skip_run |].
  split; [reflexivity |].
  split; [intros dt'; now apply hook_skip_run |].
  split; [reflexivity |].
  intros a H1 H2. cbn [floats set_skiptime set_floats].
  now rewrite !upd_other by assumption.
Qed.

Lemma applied_skip_discards_dt_witness :
  exists w',
    hook_Host_AccumulateTime sample_engine_code f_one
      (game_world f_two_and_half) = Some (tt, w') /\
    trace w' = [] /\
    (forall dt', hook_Host_AccumulateTime sample_engine_code dt'
                   (game_world f_two_and_half) = Some (tt, w')) /\
    floats w' =
      upd (upd (floats (game_world f_two_and_half)) 0x5000
               (fadd (floats (game_world f_two_and_half) 0x5000)
                     f_two_and_half))
          0x5004
          (fadd (upd (floats (game_world f_two_and_half)) 0x5000
                     (fadd (floats (game_world f_two_and_half) 0x5000)
                           f_two_and_half)
                     0x5004)
                f_two_and_half) /\
    (forall a, a <> 0x5000 -> a <> 0x5004 ->
               floats w' a = floats (game_world f_two_and_half) a).
Proof.
  apply (applied_skip_discards_dt sample_engine_code
           (game_world f_two_and_half) f_one).
  reflexivity.
Defined.

(** C10. Whenever the hook runs with a pending skip that is less than or
    equal to zero it calls the original function once, with the caller's
    [dt]; the pending skip keeps its value, and the floats are exactly what
    the original function leaves: the hook itself writes neither of the
    tracked scalars. *)
Theorem nonpositive_skip_passes_through
    (engine_code : Z -> float -> (Z -> float) -> (Z -> float))
    (w : world) (dt : float) :
  fnonpositive (skiptime w) = true ->
  exists w',
    hook_Host_AccumulateTime engine_code dt w = Some (tt, w') /\
    trace w' = trace w ++ [CallOrig (orig_Host_AccumulateTime w) dt] /\
    skiptime w' = skiptime w /\
    floats w' = engine_code (orig_Host_AccumulateTime w) dt (floats w) /\
    realtime w' = realtime w /\
    host_frametime w' = host_frametime w.
Proof.
  intros Hle. eexists.
  split.
  - apply hook_passthrough_run. now apply fnonpositive_not_positive.
  - repeat split.
Qed.

Lemma nonpositive_skip_passes_through_witness :
  exists w',
    hook_Host_AccumulateTime sample_engine_code f_one
      (game_world f_minus_one) = Some (tt, w') /\
    trace w' = [CallOrig 0x7000 f_one] /\
    skiptime w' = f_minus_one /\
    floats w' = sample_engine_code 0x7000 f_one
                  (floats (game_world f_minus_one)) /\
    realtime w' = 0x5000 /\
    host_frametime w' = 0x5004.
Proof.
  apply (nonpositive_skip_passes_through sample_engine_code
           (game_world f_minus_one) f_one).
  reflexivity.
Defined.

(** ** The inline hook engine *)

Module HookFacts.
Import HookEngine.

Lemma read_bytes_length m p n : List.length (read_bytes m p n) = n.
Proof. unfold read_bytes. now rewrite length_map, length_seq. Qed.

Lemma read_bytes_nth m p n i :
  (i < n)%nat -> nth i (read_bytes m p n) 0 = m (ptr_add p (Z.of_nat i)).
Proof.
  intros H. unfold read_bytes.
  rewrite (nth_indep _ 0 (m (ptr_add p (Z.of_nat 0))))
    by now rewrite length_map, length_seq.
  rewrite (map_nth (fun i : nat => m (ptr_add p (Z.of_nat i)))
             (seq 0 n) 0%nat i).
  now rewrite seq_nth by assumption.
Qed.

Lemma write_bytes_inside m p bs a :
  wrap32 (a - p) < Z.of_nat (List.length bs) ->
  write_bytes m p bs a = nth (Z.to_nat (wrap32 (a - p))) bs 0.
Proof.
  intros H. unfold write_bytes. cbv zeta.
  destruct (Z.ltb_spec (wrap32 (a - p)) (Z.of_nat (List.length bs)));
    [reflexivity | lia].
Qed.

Lemma write_bytes_outside m p bs a :
  Z.of_nat (List.length bs) <= wrap32 (a - p) ->
  write_bytes m p bs a = m a.
Proof.
  intros H. unfold write_bytes. cbv zeta.
  destruct (Z.ltb_spec (wrap32 (a - p)) (Z.of_nat (List.length bs)));
    [lia | reflexivity].
Qed.

Lemma ptr_add_back p a : 0 <= a < 2 ^ 32 -> ptr_add p (wrap32 (a - p)) = a.
Proof.
  intros H. unfold ptr_add, wrap32.
  rewrite Zplus_mod_idemp_r.
  replace (p + (a - p)) with a by lia.
  now apply Z.mod_small.
Qed.

(** Writing back what was read restores every cell of the region. *)
Lemma write_read_bytes m m' p n a :
  0 <= a < 2 ^ 32 ->
  wrap32 (a - p) < Z.of_nat n ->
  write_bytes m' p (read_bytes m p n) a = m a.
Proof.
  intros Ha Hin.
  pose proof (wrap32_range (a - p)) as Hr.
  rewrite write_bytes_inside by now rewrite read_bytes_length.
  rewrite read_bytes_nth by lia.
  rewrite Z2Nat.id by lia.
  now rewrite ptr_add_back.
Qed.

Section Engine.

Variable x86_len : memory -> Z -> Z.
Variable transfer : Z -> Z -> list Z.
Variable make_writable : Z -> nat -> bool.

Lemma retained_length_covers fuel m target acc need n :
  retained_length x86_len fuel m target acc need = Some n ->
  need <= n /\ acc <= n.
Proof.
  revert acc. induction fuel as [| fuel IH]; intros acc; cbn [retained_length].
  - destruct (Z.leb_spec need acc); [| discriminate].
    intros [= <-]. lia.
  - destruct (Z.leb_spec need acc).
    + intros [= <-]. lia.
    + destruct (Z.ltb_spec (x86_len m (ptr_add target acc)) 1);
        [discriminate |].
      intros E. apply IH in E. lia.
Qed.

(** What a successful install leaves behind. *)
Lemma install_success m target replacement tramp r m1 :
  install x86_len transfer make_writable m target replacement tramp
    = Some (r, m1) ->
  exists n : nat,
    (List.length (transfer target replacement) <= n)%nat /\
    r = mkHook target (read_bytes m target n) tramp true /\
    m1 = write_bytes
           (write_bytes m tramp
              (read_bytes m target n ++
               transfer (ptr_add tramp (Z.of_nat n))
                        (ptr_add target (Z.of_nat n))))
           target (transfer target replacement).
Proof.
  unfold install. cbv zeta.
  destruct (make_writable target _); cbn [negb]; [| discriminate].
  destruct (retained_length _ _ _ _ _ _) as [n |] eqn:E; [| discriminate].
  apply retained_length_covers in E.
  intros [= <- <-].
  exists (Z.to_nat n).
  rewrite Z2Nat.id by lia.
  repeat split. lia.
Qed.

End Engine.

End HookFacts.

(** C6. Install followed by uninstall restores memory: every cell of the
    target buffer (the retained bytes) and every cell outside the
    trampoline holds what it held before the install; and an uninstall of
    the record that has been uninstalled changes neither the record nor
    memory. *)
Theorem install_uninstall_roundtrip
    (x86_len : memory -> Z -> Z) (transfer : Z -> Z -> list Z)
    (make_writable : Z -> nat -> bool)
    (m : memory) (target replacement tramp : Z)
    (r : HookEngine.HookRecord) (m1 : memory) :
  HookEngine.install x86_len transfer make_writable m target replacement tramp
    = Some (r, m1) ->
  let n := List.length (HookEngine.originalBytes r) in
  let t := List.length (transfer (ptr_add tramp (Z.of_nat n))
                                 (ptr_add target (Z.of_nat n))) in
  let r2 := fst (HookEngine.uninstall r m1) in
  let m2 := snd (HookEngine.uninstall r m1) in
  (forall a, 0 <= a < 2 ^ 32 ->
             HookEngine.in_range target n a = true \/
             HookEngine.in_range tramp (n + t) a = false ->
             m2 a = m a) /\
  HookEngine.installed r2 = false /\
  HookEngine.uninstall r2 m2 = (r2, m2).
Proof.
  intros Hinst.
  apply HookFacts.install_success in Hinst.
  destruct Hinst as (n & Hlen & -> & ->).
  cbn [HookEngine.originalBytes HookEngine.uninstall HookEngine.installed
       HookEngine.targetAddress HookEngine.trampolineAddress fst snd].
  cbv zeta. rewrite HookFacts.read_bytes_length.
  split; [| split; reflexivity].
  intros a Ha Hwhere.
  unfold HookEngine.in_range in Hwhere.
  destruct (Z.ltb_spec (wrap32 (a - target)) (Z.of_nat n)) as [Hin | Hout].
  - now apply HookFacts.write_read_bytes.
  - destruct Hwhere as [Habs | Htramp]; [discriminate |].
    rewrite HookFacts.write_bytes_outside
      by now rewrite HookFacts.read_bytes_length.
    rewrite HookFacts.write_bytes_outside by lia.
    apply HookFacts.write_bytes_outside.
    rewrite length_app, HookFacts.read_bytes_length.
    apply Z.ltb_ge in Htramp. exact Htramp.
Qed.

Lemma sample_install :
  HookEngine.install sample_x86_len sample_transfer always_writable
    target_memory 0x7000 0x9000 0x8000 = Some (sample_hook, hooked_memory).
Proof. reflexivity. Qed.

Lemma install_uninstall_roundtrip_witness :
  HookEngine.install sample_x86_len sample_transfer always_writable
    target_memory 0x7000 0x9000 0x8000 = Some (sample_hook, hooked_memory) /\
  hooked_memory 0x7000 = 0xE9 /\
  snd (HookEngine.uninstall sample_hook hooked_memory) 0x7000 = 0x55 /\
  HookEngine.uninstall
    (fst (HookEngine.uninstall sample_hook hooked_memory))
    (snd (HookEngine.uninstall sample_hook hooked_memory)) =
  HookEngine.uninstall sample_hook hooked_memory.
Proof.
  split; [exact sample_install |].
  split; [now vm_compute |].
  pose proof (install_uninstall_roundtrip sample_x86_len sample_transfer
                always_writable target_memory 0x7000 0x9000 0x8000
                sample_hook hooked_memory sample_install) as H.
  cbv zeta in H. destruct H as (Hmem & _ & Hidem).
  split.
  - rewrite Hmem; [now vm_compute | now vm_compute | left; now vm_compute].
  - rewrite Hidem. symmetry. apply surjective_pairing.
Defined.

(** ** The float-call locator *)

Lemma grows_refl ok w : grows ok w w.
Proof.
  split; [reflexivity |]. exists []. split; [now rewrite app_nil_r |].
  intros a [].
Qed.

Lemma grows_trans (ok1 ok2 ok : Z -> Prop) w w1 w2 :
  (forall a, ok1 a -> ok a) -> (forall a, ok2 a -> ok a) ->
  grows ok1 w w1 -> grows ok2 w1 w2 -> grows ok w w2.
Proof.
  intros H1 H2 (M1 & n1 & T1 & R1) (M2 & n2 & T2 & R2).
  split; [congruence |].
  exists (n1 ++ n2). split.
  - now rewrite T2, T1, app_assoc.
  - intros a Ha. apply in_app_or in Ha. destruct Ha; auto.
Qed.

Lemma grows_snoc_read (ok : Z -> Prop) w w1 a :
  grows ok w w1 -> ok a -> grows ok w (emit w1 (Read a)).
Proof.
  intros (M1 & n1 & T1 & R1) H.
  split; [exact M1 |]. exists (n1 ++ [Read a]). split.
  - cbn [trace emit]. now rewrite T1, app_assoc.
  - intros b Hb. apply in_app_or in Hb.
    destruct Hb as [Hb | [[= <-] | []]]; auto.
Qed.

Lemma grows_snoc_other (ok : Z -> Prop) w w1 e :
  grows ok w w1 -> (forall a, e <> Read a) -> grows ok w (emit w1 e).
Proof.
  intros (M1 & n1 & T1 & R1) H.
  split; [exact M1 |]. exists (n1 ++ [e]). split.
  - cbn [trace emit]. now rewrite T1, app_assoc.
  - intros b Hb. apply in_app_or in Hb.
    destruct Hb as [Hb | [-> | []]]; auto. now elim (H b).
Qed.

Lemma skipn_length_app {A} (l new : list A) :
  skipn (List.length l) (l ++ new) = new.
Proof. induction l; cbn; auto. Qed.

Section LocatorFacts.

Variable x86_len : memory -> Z -> Z.

Let scan := floatcall_scan x86_len.

Lemma scan_outside fuel ins name p nc w :
  384 <= ptr_diff p ins ->
  scan fuel ins name p nc w = Some (NULL, w).
Proof.
  intros H. unfold scan.
  destruct fuel; cbn [floatcall_scan];
    destruct (Z.ltb_spec (ptr_diff p ins) 384); try lia; reflexivity.
Qed.

(** One turn of the loop, for an instruction that starts inside the
    window: the scan gives up on a decode error, goes on armed after an
    arming instruction, returns the target of a call when armed, or goes
    on as before. *)
Lemma scan_step fuel ins name p nc w :
  0 <= p < 2 ^ 32 ->
  ptr_diff p ins < 384 ->
  let m := mem w in
  let len := x86_len m p in
  exists w1,
    grows (near p) w w1 /\
    ((is_arming m p = true \/ nc && is_call m p = false) /\
     len = -1 /\
     scan (S fuel) ins name p nc w = Some (NULL, w1)
     \/
     is_arming m p = true /\ len <> -1 /\
     scan (S fuel) ins name p nc w =
     scan fuel ins name (ptr_add p len) true w1
     \/
     is_arming m p = false /\ nc = true /\ is_call m p = true /\
     scan (S fuel) ins name p nc w =
     Some (ptr_add (ptr_add p len) (sint32 (le32_at m (ptr_add p 1))), w1)
     \/
     is_arming m p = false /\ nc && is_call m p = false /\ len <> -1 /\
     scan (S fuel) ins name p nc w =
     scan fuel ins name (ptr_add p len) nc w1).
Proof.
  intros Hp Hin m len. subst m len.
  assert (N0 : near p p).
  { exists 0. split; [lia |]. now rewrite ptr_add_0. }
  assert (N1 : near p (ptr_add p 1)) by (exists 1; split; [lia | easy]).
  assert (Nk : forall k, 0 <= k <= 3 -> near p (ptr_add (ptr_add p 1) k)).
  { intros k Hk. exists (1 + k). split; [lia |]. apply ptr_add_add. }
  pose proof (Nk 1 ltac:(lia)) as N2.
  pose proof (Nk 2 ltac:(lia)) as N3.
  pose proof (Nk 3 ltac:(lia)) as N4.
  assert (G0 : grows (near p) w w) by apply grows_refl.
  assert (GR : forall w1 a, grows (near p) w w1 -> near p a ->
                            grows (near p) w (emit w1 (Read a)))
    by (intros; now apply grows_snoc_read).
  assert (GD : forall w1, grows (near p) w w1 ->
                          grows (near p) w (emit w1 (DecodeError p name)))
    by (intros; apply grows_snoc_other; [assumption | discriminate]).
  assert (Hg : (ptr_diff p ins <? 384) = true) by now apply Z.ltb_lt.
  unfold scan, is_arming, is_call. cbn [floatcall_scan]. rewrite Hg.
  run_prog.
  destruct (mem w p mod 256 =? X86_FLTBLK2) eqn:E0; run_prog;
    destruct (Z.land (mem w (ptr_add p 1) mod 256) 56 =? 0) eqn:E1; run_prog;
    destruct nc; run_prog;
    destruct (mem w p mod 256 =? X86_CALL) eqn:Ec; run_prog;
    destruct (x86_len (mem w) p =? -1) eqn:El; run_prog;
    (eexists; split; cycle 1;
     [ first
         [ solve [left; split;
                  [first [left; reflexivity | right; reflexivity]
                  | split; [apply Z.eqb_eq; exact El | reflexivity]]]
         | solve [right; left; split;
                  [reflexivity
                  | split; [apply Z.eqb_neq; exact El | reflexivity]]]
         | solve [right; right; left; repeat split]
         | solve [right; right; right; split;
                  [reflexivity
                  | split; [reflexivity
                           | split; [apply Z.eqb_neq; exact El
                                    | reflexivity]]]] ]
     | auto 10 ]).
Qed.

Hypothesis walker : walker_ok x86_len.

Lemma is_call_not_arming m p : is_call m p = true -> is_arming m p = false.
Proof.
  unfold is_call, is_arming. intros H. apply Z.eqb_eq in H. now rewrite H.
Qed.

Lemma walk_from_step m ins off k :
  x86_len m (ptr_add ins off) <> -1 ->
  walk_from x86_len m ins off (S k) =
  walk_from x86_len m ins (off + x86_len m (ptr_add ins off)) k.
Proof.
  intros H. cbn [walk_from].
  destruct (Z.eqb_spec (x86_len m (ptr_add ins off)) (-1));
    [contradiction | reflexivity].
Qed.

Lemma walk_from_S_inv m ins off k o :
  walk_from x86_len m ins off (S k) = Some o ->
  x86_len m (ptr_add ins off) <> -1.
Proof.
  cbn [walk_from].
  destruct (Z.eqb_spec (x86_len m (ptr_add ins off)) (-1));
    [discriminate | auto].
Qed.

Lemma walk_from_ge m ins k : forall off o,
  walk_from x86_len m ins off k = Some o -> off + Z.of_nat k <= o.
Proof.
  induction k as [| k IH]; intros off o H.
  - cbn in H. injection H as <-. lia.
  - pose proof (walk_from_S_inv _ _ _ _ _ H) as Hl.
    rewrite walk_from_step in H by assumption.
    apply IH in H.
    destruct (walker m (ptr_add ins off)); lia.
Qed.

Lemma walk_from_add m ins a b : forall off,
  walk_from x86_len m ins off (a + b) =
  match walk_from x86_len m ins off a with
  | Some o => walk_from x86_len m ins o b
  | None => None
  end.
Proof.
  induction a as [| a IH]; intros off; [reflexivity |].
  cbn [Nat.add walk_from].
  destruct (x86_len m (ptr_add ins off) =? -1); [reflexivity | apply IH].
Qed.

Lemma in_window ins off :
  0 <= off < 2 ^ 31 -> ptr_diff (ptr_add ins off) ins = off.
Proof. intros H. apply ptr_diff_add. lia. Qed.

Lemma ptr_in_range ins off : 0 <= ptr_add ins off < 2 ^ 32.
Proof. apply wrap32_range. Qed.

(** Once armed, the scan returns the target of the first call. *)
Lemma scan_armed_finds m ins name k : forall fuel off w oc,
  mem w = m ->
  0 <= off -> (k < fuel)%nat ->
  walk_from x86_len m ins off k = Some oc -> oc < 384 ->
  (forall j oj, (j < k)%nat -> walk_from x86_len m ins off j = Some oj ->
                is_call m (ptr_add ins oj) = false) ->
  is_call m (ptr_add ins oc) = true ->
  exists w', scan fuel ins name (ptr_add ins off) true w
             = Some (call_target_at x86_len m ins oc, w').
Proof.
  induction k as [| k IH];
    intros fuel off w oc Hm Hoff Hfuel Hwalk Hoc Hno Hcall;
    (destruct fuel as [| fuel]; [lia |]);
    pose proof (walk_from_ge _ _ _ _ _ Hwalk) as Hge;
    destruct (scan_step fuel ins name (ptr_add ins off) true w
                (ptr_in_range ins off)
                ltac:(rewrite in_window by lia; lia))
      as (w1 & (Hm1 & _) & Hcases);
    rewrite Hm in Hcases, Hm1.
  - cbn in Hwalk. injection Hwalk as <-.
    pose proof (is_call_not_arming _ _ Hcall) as Hna.
    rewrite Hcall, Hna in Hcases. cbn [andb] in Hcases.
    destruct Hcases
      as [([? | ?] & _) | [(? & _) | [(_ & _ & _ & E) | (_ & ? & _)]]];
      try discriminate.
    exists w1. exact E.
  - pose proof (walk_from_S_inv _ _ _ _ _ Hwalk) as Hl.
    rewrite walk_from_step in Hwalk by assumption.
    assert (Hc0 : is_call m (ptr_add ins off) = false)
      by (apply (Hno 0%nat); [lia | reflexivity]).
    assert (Hlen : 1 <= x86_len m (ptr_add ins off))
      by (destruct (walker m (ptr_add ins off)); lia).
    assert (Hnext : exists w', scan fuel ins name
                      (ptr_add (ptr_add ins off) (x86_len m (ptr_add ins off)))
                      true w1 = Some (call_target_at x86_len m ins oc, w')).
    { rewrite ptr_add_add. apply IH; try assumption; try lia.
      intros j oj Hj Hw. apply (Hno (S j)); [lia |].
      now rewrite walk_from_step. }
    rewrite Hc0 in Hcases. cbn [andb] in Hcases.
    destruct Hcases
      as [(_ & ? & _) | [(_ & _ & E) | [(_ & _ & ? & _) | (_ & _ & _ & E)]]];
      try contradiction; try discriminate;
      destruct Hnext as (w' & Hnext); exists w'; now rewrite E.
Qed.

(** Before it is armed, the scan walks to the first arming instruction
    and from there to the first call. *)
Lemma scan_unarmed_finds m ins name ka : forall fuel off w oa d oc,
  mem w = m ->
  0 <= off -> (ka + S d < fuel)%nat ->
  walk_from x86_len m ins off ka = Some oa ->
  is_arming m (ptr_add ins oa) = true ->
  (forall i oi, (i < ka)%nat -> walk_from x86_len m ins off i = Some oi ->
                is_arming m (ptr_add ins oi) = false) ->
  walk_from x86_len m ins oa (S d) = Some oc -> oc < 384 ->
  (forall j oj, (0 < j < S d)%nat ->
                walk_from x86_len m ins oa j = Some oj ->
                is_call m (ptr_add ins oj) = false) ->
  is_call m (ptr_add ins oc) = true ->
  exists w', scan fuel ins name (ptr_add ins off) false w
             = Some (call_target_at x86_len m ins oc, w').
Proof.
  induction ka as [| ka IH];
    intros fuel off w oa d oc Hm Hoff Hfuel Hwa Harm Hnoarm Hwc Hoc Hnocall
           Hcall;
    (destruct fuel as [| fuel]; [lia |]);
    pose proof (walk_from_ge _ _ _ _ _ Hwa) as Hge1;
    pose proof (walk_from_ge _ _ _ _ _ Hwc) as Hge2;
    destruct (scan_step fuel ins name (ptr_add ins off) false w
                (ptr_in_range ins off)
                ltac:(rewrite in_window by lia; lia))
      as (w1 & (Hm1 & _) & Hcases);
    rewrite Hm in Hcases, Hm1.
  - cbn in Hwa. injection Hwa as <-.
    pose proof (walk_from_S_inv _ _ _ _ _ Hwc) as Hl.
    rewrite walk_from_step in Hwc by assumption.
    assert (Hlen : 1 <= x86_len m (ptr_add ins off))
      by (destruct (walker m (ptr_add ins off)); lia).
    rewrite Harm in Hcases. cbn [andb] in Hcases.
    destruct Hcases as [(_ & ? & _) | [(_ & _ & E) | [(? & _) | (? & _)]]];
      try contradiction; try discriminate.
    rewrite E, ptr_add_add.
    apply scan_armed_finds with (k := d); try assumption; try lia.
    intros j oj Hj Hw. apply (Hnocall (S j)); [lia |].
    now rewrite walk_from_step.
  - pose proof (walk_from_S_inv _ _ _ _ _ Hwa) as Hl.
    rewrite walk_from_step in Hwa by assumption.
    assert (Ha0 : is_arming m (ptr_add ins off) = false)
      by (apply (Hnoarm 0%nat); [lia | reflexivity]).
    assert (Hlen : 1 <= x86_len m (ptr_add ins off))
      by (destruct (walker m (ptr_add ins off)); lia).
    rewrite Ha0 in Hcases. cbn [andb] in Hcases.
    destruct Hcases
      as [(_ & ? & _) | [(? & _) | [(_ & ? & _) | (_ & _ & _ & E)]]];
      try contradiction; try discriminate.
    rewrite E, ptr_add_add.
    apply IH with (oa := oa) (d := d); try assumption; try lia.
    intros i oi Hi Hw. apply (Hnoarm (S i)); [lia |].
    now rewrite walk_from_step.
Qed.

(** When no call follows an arming instruction inside the window the
    scan ends with [NULL]. *)
Lemma scan_without_confirmation m ins name fuel : forall off nc w,
  mem w = m ->
  0 <= off < 399 -> 384 - off <= Z.of_nat fuel ->
  (nc = true ->
   forall j oj, walk_from x86_len m ins off j = Some oj -> oj < 384 ->
                is_call m (ptr_add ins oj) = false) ->
  (forall i j oi oj, (i < j)%nat ->
     walk_from x86_len m ins off i = Some oi ->
     walk_from x86_len m ins off j = Some oj -> oj < 384 ->
     is_arming m (ptr_add ins oi) = true ->
     is_call m (ptr_add ins oj) = false) ->
  exists w', scan fuel ins name (ptr_add ins off) nc w = Some (NULL, w').
Proof.
  induction fuel as [| fuel IH]; intros off nc w Hm Hoff Hfuel Harmed Hpairs;
    (destruct (Z.lt_ge_cases off 384) as [Hin | Hout];
     [| exists w; apply scan_outside; rewrite in_window by lia; lia]);
    [lia |].
  destruct (scan_step fuel ins name (ptr_add ins off) nc w
              (ptr_in_range ins off)
              ltac:(rewrite in_window by lia; lia))
    as (w1 & (Hm1 & _) & Hcases).
  rewrite Hm in Hcases, Hm1.
  assert (Hshift : forall j,
             x86_len m (ptr_add ins off) <> -1 ->
             walk_from x86_len m ins (off + x86_len m (ptr_add ins off)) j =
             walk_from x86_len m ins off (S j))
    by (intros; now rewrite walk_from_step).
  assert (Hpairs' : x86_len m (ptr_add ins off) <> -1 ->
             forall i j oi oj, (i < j)%nat ->
               walk_from x86_len m ins
                 (off + x86_len m (ptr_add ins off)) i = Some oi ->
               walk_from x86_len m ins
                 (off + x86_len m (ptr_add ins off)) j = Some oj ->
               oj < 384 ->
               is_arming m (ptr_add ins oi) = true ->
               is_call m (ptr_add ins oj) = false).
  { intros Hl i j oi oj Hij Hi Hj. rewrite Hshift in Hi, Hj by assumption.
    apply (Hpairs (S i) (S j)); [lia | assumption | assumption]. }
  destruct Hcases
    as [(_ & _ & E) | [(Ha & Hl & E)
                      | [(_ & Hnc & Hc & _) | (_ & Hc & Hl & E)]]].
  - exists w1. exact E.
  - rewrite E, ptr_add_add.
    destruct (walker m (ptr_add ins off)) as [? | Hlen]; [contradiction |].
    apply IH; try assumption; try lia; [| now apply Hpairs'].
    intros _ j oj Hj Hoj. rewrite Hshift in Hj by assumption.
    apply (Hpairs 0%nat (S j) off oj); [lia | reflexivity | assumption
                                        | assumption | assumption].
  - rewrite (Harmed Hnc 0%nat off) in Hc; [discriminate | reflexivity | lia].
  - rewrite E, ptr_add_add.
    destruct (walker m (ptr_add ins off)) as [? | Hlen]; [contradiction |].
    apply IH; try assumption; try lia; [| now apply Hpairs'].
    intros Hnc j oj Hj Hoj. rewrite Hshift in Hj by assumption.
    now apply (Harmed Hnc (S j)).
Qed.

(** The scan always ends, and it reads nothing beyond the last byte of a
    call that starts on the last byte of the window. *)
Lemma scan_terminates_within_reach ins name fuel : forall off nc w,
  0 <= off < 399 -> 384 - off <= Z.of_nat fuel ->
  exists v w', scan fuel ins name (ptr_add ins off) nc w = Some (v, w') /\
               grows (within_reach ins) w w'.
Proof.
  induction fuel as [| fuel IH]; intros off nc w Hoff Hfuel;
    (destruct (Z.lt_ge_cases off 384) as [Hin | Hout];
     [| exists NULL, w; split;
        [apply scan_outside; rewrite in_window by lia; lia
        | apply grows_refl]]);
    [lia |].
  destruct (scan_step fuel ins name (ptr_add ins off) nc w
              (ptr_in_range ins off)
              ltac:(rewrite in_window by lia; lia))
    as (w1 & Hg & Hcases).
  assert (Hnear : forall a, near (ptr_add ins off) a -> within_reach ins a).
  { intros a (d & Hd & ->). exists (off + d). unfold WINDOW.
    split; [lia | apply ptr_add_add]. }
  assert (Hg1 : grows (within_reach ins) w w1).
  { destruct Hg as (M1 & new & T1 & R1). split; [exact M1 |].
    exists new. split; [exact T1 | auto]. }
  assert (Hcont : forall nc',
             x86_len (mem w) (ptr_add ins off) <> -1 ->
             exists v w',
               scan fuel ins name
                 (ptr_add (ptr_add ins off) (x86_len (mem w) (ptr_add ins off)))
                 nc' w1 = Some (v, w') /\
               grows (within_reach ins) w w').
  { intros nc' Hl. rewrite ptr_add_add.
    destruct (walker (mem w) (ptr_add ins off)) as [? | Hlen];
      [contradiction |].
    destruct (IH (off + x86_len (mem w) (ptr_add ins off)) nc' w1)
      as (v & w' & E & Hg2); try lia.
    exists v, w'. split; [exact E |].
    eapply grows_trans; [| | exact Hg1 | exact Hg2]; auto. }
  destruct Hcases
    as [(_ & _ & E) | [(_ & Hl & E)
                      | [(_ & _ & _ & E) | (_ & _ & Hl & E)]]].
  - eexists. exists w1. split; [exact E | exact Hg1].
  - rewrite E. now apply Hcont.
  - eexists. exists w1. split; [exact E | exact Hg1].
  - rewrite E. now apply Hcont.
Qed.

End LocatorFacts.

Lemma value_of_returns {A} (c : M A) (w : world) (v : A) :
  value_of c w = Some v -> returns c w v.
Proof.
  unfold value_of, returns. destruct (c w) as [[a w'] |]; cbn; [| discriminate].
  intros [= ->]. now exists w'.
Qed.

Lemma events_of_grows {A} (ok : Z -> Prop) (c : M A) w v w' :
  c w = Some (v, w') -> grows ok w w' ->
  forall a, In (Read a) (events_of c w) -> ok a.
Proof.
  intros E (_ & new & T & R) a. unfold events_of.
  rewrite E, T, skipn_length_app. apply R.
Qed.

(** C1, amended. Let the walker size every instruction (length -1 or 1 to
    15) and let [fn] be a 32-bit address.
    (1) If the first arming instruction of the stream at [fn] (opcode 0xD9
    with a zero reg field in its ModRM byte) is instruction [ka], and the
    first near relative call (opcode 0xE8) after it is instruction [kc],
    which starts inside the window at address [A], has walker length [L]
    and signed 32-bit displacement [R], then [find_floatcall] returns the
    32-bit address [A + L + R].
    (2) If no call that starts inside the window follows an arming
    instruction, it returns [NULL].
    (3) It always returns, and every byte it reads itself lies below
    [fn + WINDOW + 4]: an instruction that starts inside the window is
    read even where it extends past the window's end. *)
Theorem find_floatcall_locates
    (x86_len : memory -> Z -> Z) (w : world) (fn : Z) (name : string) :
  walker_ok x86_len ->
  0 <= fn < 2 ^ 32 ->
  let m := mem w in
  (forall ka kc oa oc,
      (ka < kc)%nat ->
      insn_offset x86_len m fn ka = Some oa ->
      is_arming m (ptr_add fn oa) = true ->
      (forall i oi, (i < ka)%nat ->
                    insn_offset x86_len m fn i = Some oi ->
                    is_arming m (ptr_add fn oi) = false) ->
      insn_offset x86_len m fn kc = Some oc ->
      oc < WINDOW ->
      is_call m (ptr_add fn oc) = true ->
      (forall j oj, (ka < j < kc)%nat ->
                    insn_offset x86_len m fn j = Some oj ->
                    is_call m (ptr_add fn oj) = false) ->
      let A := ptr_add fn oc in
      let L := x86_len m A in
      let R := sint32 (le32_at m (ptr_add A 1)) in
      returns (find_floatcall x86_len fn name) w (wrap32 (A + L + R))) /\
  ((forall i j oi oj, (i < j)%nat ->
       insn_offset x86_len m fn i = Some oi ->
       insn_offset x86_len m fn j = Some oj ->
       oj < WINDOW ->
       is_arming m (ptr_add fn oi) = true ->
       is_call m (ptr_add fn oj) = false) ->
   returns (find_floatcall x86_len fn name) w NULL) /\
  ((exists v, returns (find_floatcall x86_len fn name) w v) /\
   (forall a, In (Read a) (events_of (find_floatcall x86_len fn name) w) ->
              within_reach fn a)).
Proof.
  intros Hwalker Hfn m.
  unfold find_floatcall, returns, insn_offset, WINDOW.
  assert (E0 : floatcall_scan x86_len 384 fn name fn false =
               floatcall_scan x86_len 384 fn name (ptr_add fn 0) false)
    by now rewrite ptr_add_0.
  rewrite E0. clear E0.
  split; [| split].
  - intros ka kc oa oc Hk Hoa Harm Hnoarm Hoc Hwin Hcall Hnocall.
    replace kc with (ka + S (kc - ka - 1))%nat in Hoc by lia.
    rewrite walk_from_add, Hoa in Hoc.
    pose proof (walk_from_ge _ Hwalker _ _ _ _ _ Hoa) as Hge1.
    pose proof (walk_from_ge _ Hwalker _ _ _ _ _ Hoc) as Hge2.
    set (A := ptr_add fn oc).
    set (R := sint32 (le32_at m (ptr_add A 1))).
    replace (wrap32 (A + x86_len m A + R))
      with (call_target_at x86_len m fn oc).
    2: { unfold call_target_at. fold A. fold R.
         rewrite ptr_add_add. unfold ptr_add. f_equal. lia. }
    apply (scan_unarmed_finds x86_len Hwalker m fn name ka 384 0 w oa
             (kc - ka - 1)); try assumption; try reflexivity; try lia.
    intros j oj Hj Hw.
    apply (Hnocall (ka + j)%nat); [lia |].
    now rewrite walk_from_add, Hoa.
  - intros Hpairs.
    apply (scan_without_confirmation x86_len Hwalker m fn name 384 0 false w);
      try reflexivity; try lia; try discriminate.
    exact Hpairs.
  - destruct (scan_terminates_within_reach x86_len Hwalker fn name 384 0
                false w)
      as (v & w' & E & Hg); try lia.
    split; [now exists v, w' |].
    now apply (events_of_grows _ _ _ _ _ E Hg).
Qed.

Lemma sample_walker_ok : walker_ok sample_x86_len.
Proof.
  intros m p. unfold sample_x86_len. cbv zeta.
  repeat match goal with
         | |- context [if ?c then _ else _] => destruct c
         end; lia.
Qed.

Lemma nocall_memory_has_no_call a : is_call nocall_memory a = false.
Proof.
  unfold is_call, nocall_memory, layout. cbn [fold_right fst snd List.length].
  destruct ((0 <=? a - 4096) && (a - 4096 <? Z.of_nat 2)); [| reflexivity].
  destruct (Z.to_nat (a - 4096)) as [| [| [| n]]]; reflexivity.
Qed.

Lemma reads_byte_In a evs : reads_byte a evs = true -> In (Read a) evs.
Proof.
  unfold reads_byte. intros H. apply existsb_exists in H.
  destruct H as ([] & Hin & Hb); try discriminate.
  apply Z.eqb_eq in Hb. now subst.
Qed.

Lemma find_floatcall_locates_witness :
  returns (find_floatcall sample_x86_len 0x1000 "CHostState::State_Run")
          (boot floatcall_memory no_floats) 0x1018 /\
  returns (find_floatcall sample_x86_len 0x1000 "CHostState::State_Run")
          (boot nocall_memory no_floats) NULL /\
  (forall a,
      In (Read a)
         (events_of (find_floatcall sample_x86_len 0x1000
                       "CHostState::State_Run")
                    (boot floatcall_memory no_floats)) ->
      within_reach 0x1000 a).
Proof.
  split; [| split].
  - pose proof (proj1 (find_floatcall_locates sample_x86_len
                         (boot floatcall_memory no_floats) 0x1000
                         "CHostState::State_Run" sample_walker_ok
                         ltac:(now vm_compute)) 0%nat 2%nat 0 3) as H.
    cbv zeta in H. apply H.
    + lia.
    + reflexivity.
    + now vm_compute.
    + intros i oi Hi. lia.
    + now vm_compute.
    + now vm_compute.
    + now vm_compute.
    + intros j oj Hj E. assert (j = 1%nat) by lia. subst j.
      vm_compute in E. injection E as <-. now vm_compute.
  - apply (proj1 (proj2 (find_floatcall_locates sample_x86_len
                           (boot nocall_memory no_floats) 0x1000
                           "CHostState::State_Run" sample_walker_ok
                           ltac:(now vm_compute)))).
    intros i j oi oj _ _ _ _ _. apply nocall_memory_has_no_call.
  - exact (proj2 (proj2 (proj2 (find_floatcall_locates sample_x86_len
                                  (boot floatcall_memory no_floats) 0x1000
                                  "CHostState::State_Run" sample_walker_ok
                                  ltac:(now vm_compute))))).
Defined.

(** C1 as stated fails in its last part: when the confirming call starts on
    the last byte of the window, the locator returns its target after
    reading the displacement, whose first byte is at [fn + WINDOW]. *)
Lemma find_floatcall_reads_past_window :
  value_of (find_floatcall sample_x86_len 0x1000 "CHostState::State_Run")
           (boot far_call_memory no_floats) = Some 0x1194 /\
  exists a,
    0x1000 + WINDOW <= a /\
    In (Read a)
       (events_of (find_floatcall sample_x86_len 0x1000
                     "CHostState::State_Run")
                  (boot far_call_memory no_floats)).
Proof.
  split; [now vm_compute |].
  exists (0x1000 + WINDOW). split; [lia |].
  apply reads_byte_In. now vm_compute.
Qed.

(** ** Initialisation *)

(** In the sample engine, with both accessors of the expected shape,
    [INIT] finds the two floats and [Host_AccumulateTime] and hooks it. *)
Lemma sample_INIT_succeeds :
  let w := boot (engine_memory good_getter) no_floats in
  value_of (sample_INIT full_factory) w = Some true /\
  option_map realtime (final_of (sample_INIT full_factory) w) = Some 0x5000 /\
  option_map host_frametime (final_of (sample_INIT full_factory) w)
    = Some 0x5004 /\
  option_map orig_Host_AccumulateTime (final_of (sample_INIT full_factory) w)
    = Some 0x8001 /\
  effects (events_of (sample_INIT full_factory) w) = [HookInline 0x7000 0x6000].
Proof. cbv zeta. repeat split; now vm_compute. Qed.

(** C3, evaluated at the failing input. The engine's [GetRealTime] is not
    of the shape [floatgetter] expects, so the extractor returns [NULL];
    [INIT] stores the [NULL] in [realtime] without a check, reports
    nothing, goes on to locate and hook [Host_AccumulateTime] and returns
    true. *)
Lemma INIT_ignores_null_realtime :
  let w := boot (engine_memory other_getter) no_floats in
  value_of (floatgetter 0x3000) w = Some NULL /\
  value_of (sample_INIT full_factory) w = Some true /\
  option_map realtime (final_of (sample_INIT full_factory) w) = Some NULL /\
  effects (events_of (sample_INIT full_factory) w) = [HookInline 0x7000 0x6000].
Proof. cbv zeta. repeat split; now vm_compute. Qed.

(** Without the HLDS interface, [find_Host_AccumulateTime] reports the
    error and then goes on with the null handle. *)
Lemma find_Host_AccumulateTime_null_hlds
    (x86_len : memory -> Z -> Z) (factory_engine : string -> Z)
    (vtidx_RunFrame vtidx_Frame : Z) (w : world) :
  factory_engine "VENGINE_HLDS_API_VERSION002" = NULL ->
  find_Host_AccumulateTime x86_len factory_engine vtidx_RunFrame vtidx_Frame w
  = bind (vcall_slot NULL vtidx_RunFrame)
         (find_from_runframe x86_len vtidx_Frame)
         (emit w (Errmsg "missing hlds api interface")).
Proof.
  intros H. unfold find_Host_AccumulateTime. rewrite H. reflexivity.
Qed.

(** C4, evaluated at the failing input. Without the engine tool interface
    [INIT] reports the missing interface and returns false at once, with
    no read. Without the HLDS interface the error is reported, but the
    function does not return: the next thing it does is to read the vtable
    pointer through the null handle, at the addresses 0 to 3. *)
Lemma missing_hlds_interface_is_dereferenced :
  let w := boot (engine_memory good_getter) no_floats in
  events_of (sample_INIT factory_without_tool) w
    = [Errmsg "missing engine tool interface"] /\
  value_of (sample_INIT factory_without_tool) w = Some false /\
  firstn 5 (events_of (sample_find_Host_AccumulateTime factory_without_hlds) w)
    = [Errmsg "missing hlds api interface"; Read 0; Read 1; Read 2; Read 3] /\
  effects (events_of (sample_INIT factory_without_hlds) w)
    = [Errmsg "missing hlds api interface";
       DecodeError 0 "eng global object";
       Errmsg "couldn't find Host_Accumulate"].
Proof. cbv zeta. repeat split; now vm_compute. Qed.

(** ** What the scans change and report *)

Lemma logs_refl P w : logs P w w.
Proof. exists []. split; [now rewrite app_nil_r | constructor]. Qed.

Lemma logs_trans P w w1 w2 : logs P w w1 -> logs P w1 w2 -> logs P w w2.
Proof.
  intros (n1 & T1 & F1) (n2 & T2 & F2). exists (n1 ++ n2). split.
  - now rewrite T2, T1, app_assoc.
  - apply Forall_app. now split.
Qed.

Lemma logs_snoc (P : event -> Prop) w w1 e :
  logs P w w1 -> P e -> logs P w (emit w1 e).
Proof.
  intros (n1 & T1 & F1) He. exists (n1 ++ [e]). split.
  - cbn [trace emit]. now rewrite T1, app_assoc.
  - apply Forall_app. split; [assumption | now constructor].
Qed.

Lemma reads_only_refl w : reads_only w w.
Proof. unfold reads_only. repeat split. apply logs_refl. Qed.

Lemma reads_only_trans w w1 w2 :
  reads_only w w1 -> reads_only w1 w2 -> reads_only w w2.
Proof.
  intros (A1 & B1 & C1 & D1 & E1 & F1 & G1) (A2 & B2 & C2 & D2 & E2 & F2 & G2).
  unfold reads_only. repeat split; try congruence.
  eapply logs_trans; eassumption.
Qed.

Lemma reads_only_snoc w w1 e :
  reads_only w w1 -> scan_event e -> reads_only w (emit w1 e).
Proof.
  intros (A1 & B1 & C1 & D1 & E1 & F1 & G1) He.
  unfold reads_only. cbn [mem floats realtime host_frametime
                          orig_Host_AccumulateTime skiptime emit].
  repeat split; try assumption. now apply logs_snoc.
Qed.

Lemma reports_snoc w w1 e :
  reads_only w w1 -> failure_event e -> reports w (emit w1 e).
Proof.
  intros (_ & _ & _ & _ & _ & _ & n1 & T1 & F1) He.
  exists n1, e. split; [| now split].
  cbn [trace emit]. now rewrite T1, app_assoc.
Qed.

Lemma reads_then_reports w w1 w2 :
  reads_only w w1 -> reports w1 w2 -> reports w w2.
Proof.
  intros (_ & _ & _ & _ & _ & _ & n1 & T1 & F1) (evs & e & T2 & F2 & He).
  exists (n1 ++ evs), e. split; [| split; [| assumption]].
  - now rewrite T2, T1, <- !app_assoc.
  - apply Forall_app. now split.
Qed.

Lemma reports_logs w w' : reports w w' -> logs scan_event w w'.
Proof.
  intros (evs & e & T & F & He). exists (evs ++ [e]). split; [assumption |].
  apply Forall_app. split; [assumption |].
  constructor; [| constructor]. destruct e; cbn in *; auto.
Qed.

(** Proves that a world built by logging scan events on [w] is [w] after a
    scan. *)
Ltac scanned :=
  repeat first
    [ apply reads_only_refl
    | apply reads_only_snoc; [| exact I] ].

(** Runs the program in hypothesis [H] as far as its tests are decided,
    splitting on each test it meets. *)
Ltac exec H :=
  repeat
    (cbv beta iota zeta
         delta [bind load8 log modify get ret NEXT_INSN mem_load32
                mem_loadptr call_target out_of_fuel vcall_slot] in H;
     cbn [mem emit] in H;
     try match type of H with
         | context [if ?c then _ else _] => destruct c eqn:?
         end).

(** Runs the program of the goal as far as its tests are decided,
    splitting on each test it meets. *)
Ltac exec_goal :=
  repeat
    (cbv beta iota zeta
         delta [bind load8 log modify get ret NEXT_INSN mem_load32
                mem_loadptr call_target out_of_fuel vcall_slot];
     cbn [mem emit];
     try match goal with
         | |- context [if ?c then _ else _] => destruct c eqn:?
         end).


Section ScanFacts.

Variable x86_len : memory -> Z -> Z.

(** Closes a case of a scan loop: the loop has ended, or it goes round
    again and the induction hypothesis [IH] applies. *)
Ltac close_scan IH H :=
  first
    [ discriminate H
    | injection H as <- <-;
      split;
      [ scanned
      | first [ discriminate
              | intros _; apply reports_snoc; [scanned | exact I] ] ]
    | apply IH in H;
      let H1 := fresh "H1" in
      let H2 := fresh "H2" in
      destruct H as (H1 & H2);
      split;
      [ eapply reads_only_trans; [| exact H1]; scanned
      | let Hr := fresh "Hr" in
        intros Hr; eapply reads_then_reports; [| exact (H2 Hr)]; scanned ] ].

(** The four locator loops of [find_Host_AccumulateTime] only read, and
    when one gives up on an instruction the decode error is the last thing
    it has logged. *)
Lemma eng_scan_reads_only fuel : forall ins p,
  ensures (eng_scan x86_len fuel ins p)
          (fun w r w' => reads_only w w' /\ (r = Aborted -> reports w w')).
Proof.
  induction fuel as [| fuel IH]; intros ins p w r w' H;
    cbn [eng_scan] in H; exec H; close_scan IH H.
Qed.

Lemma hoststate_scan_reads_only fuel : forall ins p nc,
  ensures (hoststate_scan x86_len fuel ins p nc)
          (fun w r w' => reads_only w w' /\ (r = Aborted -> reports w w')).
Proof.
  induction fuel as [| fuel IH]; intros ins p nc w r w' H;
    cbn [hoststate_scan] in H; exec H; close_scan IH H.
Qed.

Lemma frameupdate_scan_reads_only fuel : forall ins p,
  ensures (frameupdate_scan x86_len fuel ins p)
          (fun w r w' => reads_only w w' /\ (r = Aborted -> reports w w')).
Proof.
  induction fuel as [| fuel IH]; intros ins p w r w' H;
    cbn [frameupdate_scan] in H; exec H; close_scan IH H.
Qed.

Lemma accumulate_scan_reads_only fuel : forall ins p nc,
  ensures (accumulate_scan x86_len fuel ins p nc)
          (fun w r w' => reads_only w w' /\ (r = Aborted -> reports w w')).
Proof.
  induction fuel as [| fuel IH]; intros ins p nc w r w' H;
    cbn [accumulate_scan] in H; exec H; close_scan IH H.
Qed.

Lemma floatcall_scan_reads_only name fuel : forall ins p nc,
  ensures (floatcall_scan x86_len fuel ins name p nc)
          (fun w v w' => reads_only w w').
Proof.
  induction fuel as [| fuel IH]; intros ins p nc w r w' H;
    cbn [floatcall_scan] in H; exec H;
    first [ discriminate H
          | injection H as <- <-; scanned
          | apply IH in H; eapply reads_only_trans; [| exact H]; scanned ].
Qed.

Lemma vcall_slot_reads_only obj idx :
  ensures (vcall_slot obj idx) (fun w v w' => reads_only w w').
Proof. intros w v w' H. exec H. injection H as <- <-. scanned. Qed.

Lemma lor_below n a b :
  0 < n -> 0 <= a < 2 ^ n -> 0 <= b < 2 ^ n -> 0 <= Z.lor a b < 2 ^ n.
Proof.
  intros Hn Ha Hb.
  assert (H0 : 0 <= Z.lor a b) by (apply Z.lor_nonneg; lia).
  split; [assumption |].
  destruct (Z.eq_dec (Z.lor a b) 0) as [-> | Hne]; [lia |].
  apply Z.log2_lt_pow2; [lia |].
  rewrite Z.log2_lor by lia.
  assert (La : Z.log2 a < n).
  { destruct (Z.eq_dec a 0) as [-> | ?]; [cbn; lia |].
    apply Z.log2_lt_pow2; lia. }
  assert (Lb : Z.log2 b < n).
  { destruct (Z.eq_dec b 0) as [-> | ?]; [cbn; lia |].
    apply Z.log2_lt_pow2; lia. }
  lia.
Qed.

(** A 32-bit load yields a 32-bit value. *)
Lemma le32_at_range m p : 0 <= le32_at m p < 2 ^ 32.
Proof.
  unfold le32_at.
  pose proof (Z.mod_pos_bound (m p) 256 ltac:(lia)).
  pose proof (Z.mod_pos_bound (m (ptr_add p 1)) 256 ltac:(lia)).
  pose proof (Z.mod_pos_bound (m (ptr_add p 2)) 256 ltac:(lia)).
  pose proof (Z.mod_pos_bound (m (ptr_add p 3)) 256 ltac:(lia)).
  rewrite !Z.shiftl_mul_pow2 by lia.
  repeat apply lor_below; lia.
Qed.

Lemma vcall_slot_total obj idx w :
  exists v w', vcall_slot obj idx w = Some (v, w') /\ 0 <= v < 2 ^ 32.
Proof.
  eexists. eexists. split; [reflexivity |]. apply le32_at_range.
Qed.

(** Closes a case of a scan loop when the claim is that a found target is
    a 32-bit address. *)
Ltac close_range IH H :=
  first
    [ discriminate H
    | injection H as <- <-;
      let t := fresh "t" in
      intros t;
      first [ discriminate
            | intros [= <-];
              first [ apply wrap32_range | apply le32_at_range ] ]
    | now apply IH in H ].

Lemma eng_scan_in_range fuel : forall ins p,
  ensures (eng_scan x86_len fuel ins p)
          (fun w r w' => forall t, r = Found t -> 0 <= t < 2 ^ 32).
Proof.
  induction fuel as [| fuel IH]; intros ins p w r w' H;
    cbn [eng_scan] in H; exec H; close_range IH H.
Qed.

Lemma hoststate_scan_in_range fuel : forall ins p nc,
  ensures (hoststate_scan x86_len fuel ins p nc)
          (fun w r w' => forall t, r = Found t -> 0 <= t < 2 ^ 32).
Proof.
  induction fuel as [| fuel IH]; intros ins p nc w r w' H;
    cbn [hoststate_scan] in H; exec H; close_range IH H.
Qed.

Lemma frameupdate_scan_in_range fuel : forall ins p,
  ensures (frameupdate_scan x86_len fuel ins p)
          (fun w r w' => forall t, r = Found t -> 0 <= t < 2 ^ 32).
Proof.
  induction fuel as [| fuel IH]; intros ins p w r w' H;
    cbn [frameupdate_scan] in H; exec H; close_range IH H.
Qed.


Lemma floatcall_scan_in_range name fuel : forall ins p nc,
  ensures (floatcall_scan x86_len fuel ins name p nc)
          (fun w v w' => 0 <= v < 2 ^ 32).
Proof.
  induction fuel as [| fuel IH]; intros ins p nc w r w' H;
    cbn [floatcall_scan] in H; exec H;
    first [ discriminate H
          | injection H as <- <-;
            first [ apply wrap32_range | now vm_compute ]
          | now apply IH in H ].
Qed.

Lemma scan_log_done name v w w' :
  logs is_read w w' -> scan_log x86_len name v w w'.
Proof. intros (reads & T & F). exists reads. split; [assumption | now left]. Qed.

Lemma scan_log_abort name w w0 a :
  mem w0 = mem w -> x86_len (mem w0) a = -1 -> logs is_read w w0 ->
  scan_log x86_len name NULL w (emit w0 (DecodeError a name)).
Proof.
  intros M E (reads & T & F). exists reads. split; [assumption | right].
  split; [reflexivity |]. exists a. split; [now rewrite <- M |].
  cbn [trace emit]. now rewrite T, app_assoc.
Qed.

Lemma scan_log_after name v w w1 w' :
  mem w1 = mem w -> logs is_read w w1 -> scan_log x86_len name v w1 w' ->
  scan_log x86_len name v w w'.
Proof.
  intros M (r1 & T1 & F1) (r2 & F2 & [T2 | (-> & a & E & T2)]);
    exists (r1 ++ r2); (split; [apply Forall_app; now split |]).
  - left. now rewrite T2, T1, app_assoc.
  - right. split; [reflexivity |]. exists a. split; [now rewrite <- M |].
    now rewrite T2, T1, <- !app_assoc.
Qed.

(** Proves that a world built by logging reads on [w] has only reads
    more. *)
Ltac only_reads :=
  repeat first [ apply logs_refl | apply logs_snoc; [| exact I] ].

(** [floatcall_scan] logs reads, and at most one decode error, which ends
    it. *)
Lemma floatcall_scan_log name fuel : forall ins p nc,
  ensures (floatcall_scan x86_len fuel ins name p nc)
          (fun w v w' => scan_log x86_len name v w w').
Proof.
  induction fuel as [| fuel IH]; intros ins p nc w r w' H;
    cbn [floatcall_scan] in H; exec H; try discriminate H.
  all: try (apply IH in H;
            eapply scan_log_after; [| | exact H];
            [reflexivity | only_reads]).
  all: injection H as <- <-.
  all: try (apply scan_log_abort;
            [reflexivity | now apply Z.eqb_eq | only_reads]).
  all: apply scan_log_done; only_reads.
Qed.





Hypothesis walker : walker_ok x86_len.

(** Closes a case of a scan loop when the claim is that the loop ends:
    it has ended, or it goes round again from the next instruction. *)
Ltac close_total IH w off :=
  first
    [ eexists; eexists; reflexivity
    | rewrite !ptr_add_add;
      match goal with
      | E : (x86_len (mem w) ?p =? -1) = false |- _ =>
          apply Z.eqb_neq in E;
          destruct (walker (mem w) p) as [? | ?];
          [ contradiction | apply IH; lia ]
      end ].

Lemma eng_scan_total ins fuel : forall off w,
  0 <= off < 47 -> 32 - off <= Z.of_nat fuel ->
  exists r w', eng_scan x86_len fuel ins (ptr_add ins off) w = Some (r, w').
Proof.
  induction fuel as [| fuel IH]; intros off w Hoff Hfuel;
    cbn [eng_scan]; rewrite ptr_diff_add by lia;
    (destruct (Z.ltb_spec off 32); [| eexists; eexists; reflexivity]);
    [lia |].
  exec_goal; close_total IH w off.
Qed.

Lemma hoststate_scan_total ins fuel : forall off nc w,
  0 <= off < 399 -> 384 - off <= Z.of_nat fuel ->
  exists r w',
    hoststate_scan x86_len fuel ins (ptr_add ins off) nc w = Some (r, w').
Proof.
  induction fuel as [| fuel IH]; intros off nc w Hoff Hfuel;
    cbn [hoststate_scan]; rewrite ptr_diff_add by lia;
    (destruct (Z.ltb_spec off 384); [| eexists; eexists; reflexivity]);
    [lia |].
  exec_goal; close_total IH w off.
Qed.

Lemma frameupdate_scan_total ins fuel : forall off w,
  0 <= off < 399 -> 384 - off <= Z.of_nat fuel ->
  exists r w',
    frameupdate_scan x86_len fuel ins (ptr_add ins off) w = Some (r, w').
Proof.
  induction fuel as [| fuel IH]; intros off w Hoff Hfuel;
    cbn [frameupdate_scan]; rewrite ptr_diff_add by lia;
    (destruct (Z.ltb_spec off 384); [| eexists; eexists; reflexivity]);
    [lia |].
  exec_goal; close_total IH w off.
Qed.

Lemma accumulate_scan_total ins fuel : forall off nc w,
  0 <= off < 399 -> 384 - off <= Z.of_nat fuel ->
  exists r w',
    accumulate_scan x86_len fuel ins (ptr_add ins off) nc w = Some (r, w').
Proof.
  induction fuel as [| fuel IH]; intros off nc w Hoff Hfuel;
    cbn [accumulate_scan]; rewrite ptr_diff_add by lia;
    (destruct (Z.ltb_spec off 384); [| eexists; eexists; reflexivity]);
    [lia |].
  exec_goal; close_total IH w off.
Qed.

End ScanFacts.

Lemma locates_only_of_reads w w' : reads_only w w' -> locates_only w w'.
Proof.
  intros (A & B & C & D & E & F & G). unfold locates_only. repeat split;
    assumption.
Qed.

Lemma locates_only_trans w w1 w2 :
  locates_only w w1 -> locates_only w1 w2 -> locates_only w w2.
Proof.
  intros (A1 & B1 & C1 & D1 & F1 & G1) (A2 & B2 & C2 & D2 & F2 & G2).
  unfold locates_only. repeat split; try congruence.
  eapply logs_trans; eassumption.
Qed.

Lemma locates_only_set_orig w w1 t :
  locates_only w w1 -> locates_only w (set_orig w1 t).
Proof. intros H. exact H. Qed.

Lemma locates_only_snoc w w1 e :
  locates_only w w1 -> scan_event e -> locates_only w (emit w1 e).
Proof.
  intros (A1 & B1 & C1 & D1 & F1 & G1) He.
  unfold locates_only. cbn [mem floats realtime host_frametime skiptime emit].
  repeat split; try assumption. now apply logs_snoc.
Qed.

Lemma reports_after w w1 e :
  locates_only w w1 -> failure_event e -> reports w (emit w1 e).
Proof.
  intros (_ & _ & _ & _ & _ & n1 & T1 & F1) He.
  exists n1, e. split; [| now split].
  cbn [trace emit]. now rewrite T1, app_assoc.
Qed.

Lemma locates_then_reports w w1 w2 :
  locates_only w w1 -> reports w1 w2 -> reports w w2.
Proof.
  intros (_ & _ & _ & _ & _ & n1 & T1 & F1) (evs & e & T2 & F2 & He).
  exists (n1 ++ evs), e. split; [| split; [| assumption]].
  - now rewrite T2, T1, <- !app_assoc.
  - apply Forall_app. now split.
Qed.

(** Splits the first bind of the program in [H] on the result of its
    first computation, which is named [v], the world it leaves [w] and the
    equation [E]. *)
Tactic Notation "step" hyp(H) "as" ident(v) ident(w) ident(E) :=
  unfold bind at 1 in H;
  match type of H with
  | match ?c ?w0 with _ => _ end = _ =>
      destruct (c w0) as [[v w] |] eqn:E; [| discriminate H]
  end.

(** Splits the first bind of the program in [H] on the result of its
    first computation. *)
Ltac first_call H E :=
  unfold bind at 1 in H;
  match type of H with
  | match ?c ?w with _ => _ end = _ =>
      destruct (c w) as [[? ?] |] eqn:E; [| discriminate H]
  end.

(** Proves that a world built from [w1] by logging scan events and
    assigning [orig_Host_AccumulateTime] is [w] after locating, when [R]
    says so of [w1]. *)
Ltac loc R :=
  repeat first
    [ exact R
    | apply locates_only_snoc; [| exact I]
    | apply locates_only_set_orig ].

(** The loops are kept folded from here on: the facts above are all that
    is used of them. *)
Opaque eng_scan hoststate_scan frameupdate_scan accumulate_scan
       floatcall_scan.

Section InitFacts.

Variable x86_len : memory -> Z -> Z.
Variable factory_engine : string -> Z.
Variables vtidx_RunFrame vtidx_Frame : Z.
Variables vtidx_GetRealTime vtidx_HostFrameTime : Z.
Variable hook_addr : Z.
Variable hook_inline_result : Z -> Z -> Z.

Lemma find_from_host_runframe_located hr :
  ensures (find_from_host_runframe x86_len hr) located.
Proof.
  intros w v w' H. unfold find_from_host_runframe in H.
  first_call H E. apply accumulate_scan_reads_only in E.
  destruct E as (R & Hab). apply locates_only_of_reads in R.
  destruct s as [t | |]; exec H; injection H as <- <-.
  all: split; [loc R | split; intros Hv; try discriminate Hv].
  - apply reports_after; [loc R | exact I].
  - cbn [orig_Host_AccumulateTime set_orig]. now apply Z.eqb_neq.
  - apply reports_after; [loc R | exact I].
  - now apply Z.eqb_neq.
  - now apply Hab.
Qed.

Lemma find_floatcall_reads_only fn name :
  ensures (find_floatcall x86_len fn name) (fun w v w' => reads_only w w').
Proof. unfold find_floatcall. apply floatcall_scan_reads_only. Qed.

Lemma find_from_frameupdate_located fu :
  ensures (find_from_frameupdate x86_len fu) located.
Proof.
  intros w v w' H. unfold find_from_frameupdate in H.
  first_call H E1. apply find_floatcall_reads_only in E1.
  apply locates_only_of_reads in E1.
  destruct (z =? NULL).
  { exec H. injection H as <- <-.
    split; [loc E1 | split; intros Hv; try discriminate Hv].
    apply reports_after; [loc E1 | exact I]. }
  first_call H E2. apply find_floatcall_reads_only in E2.
  apply locates_only_of_reads in E2.
  pose proof (locates_only_trans _ _ _ E1 E2) as R2.
  destruct (z0 =? NULL).
  { exec H. injection H as <- <-.
    split; [loc R2 | split; intros Hv; try discriminate Hv].
    apply reports_after; [loc R2 | exact I]. }
  first_call H E3. apply find_floatcall_reads_only in E3.
  apply locates_only_of_reads in E3.
  pose proof (locates_only_trans _ _ _ R2 E3) as R3.
  destruct (z1 =? NULL).
  { exec H. injection H as <- <-.
    split; [loc R3 | split; intros Hv; try discriminate Hv].
    apply reports_after; [loc R3 | exact I]. }
  apply find_from_host_runframe_located in H.
  destruct H as (L & Hf & Ht).
  split; [eapply locates_only_trans; eassumption | split].
  - intros Hv. eapply locates_then_reports; [exact R3 | now apply Hf].
  - exact Ht.
Qed.

Lemma find_from_runframe_located rf :
  ensures (find_from_runframe x86_len vtidx_Frame rf) located.
Proof.
  intros w v w' H. unfold find_from_runframe in H.
  first_call H E1. apply eng_scan_reads_only in E1.
  destruct E1 as (R1 & Hab1). apply locates_only_of_reads in R1.
  assert (Hgo :
    forall eng,
      (if eng =? NULL
       then log (Errmsg "couldn't find eng global object") ;; ret false
       else
         frame <- vcall_slot eng vtidx_Frame ;;
         r2 <- hoststate_scan x86_len 384 frame frame false ;;
         match r2 with
         | Aborted => ret false
         | _ =>
             let hoststate_frame := found_or_null r2 in
             if hoststate_frame =? NULL then
               log (Errmsg "couldn't find HostState_Frame") ;; ret false
             else
               r3 <- frameupdate_scan x86_len 384 hoststate_frame
                       hoststate_frame ;;
               match r3 with
               | Aborted => ret false
               | _ =>
                   let frameupdate := found_or_null r3 in
                   if frameupdate =? NULL then
                     log (Errmsg "couldn't find frameupdate") ;; ret false
                   else find_from_frameupdate x86_len frameupdate
               end
         end) w0 = Some (v, w') ->
      located w v w').
  { clear H. intros eng H.
    destruct (eng =? NULL).
    { exec H. injection H as <- <-.
      split; [loc R1 | split; intros Hv; try discriminate Hv].
      apply reports_after; [loc R1 | exact I]. }
    first_call H E2. apply vcall_slot_reads_only in E2.
    apply locates_only_of_reads in E2.
    pose proof (locates_only_trans _ _ _ R1 E2) as R2.
    first_call H E3. apply hoststate_scan_reads_only in E3.
    destruct E3 as (E3 & Hab3). apply locates_only_of_reads in E3.
    pose proof (locates_only_trans _ _ _ R2 E3) as R3.
    assert (Hgo3 :
      forall hsf,
        (if hsf =? NULL
         then log (Errmsg "couldn't find HostState_Frame") ;; ret false
         else
           r3 <- frameupdate_scan x86_len 384 hsf hsf ;;
           match r3 with
           | Aborted => ret false
           | _ =>
               let frameupdate := found_or_null r3 in
               if frameupdate =? NULL then
                 log (Errmsg "couldn't find frameupdate") ;; ret false
               else find_from_frameupdate x86_len frameupdate
           end) w2 = Some (v, w') ->
        located w v w').
    { clear H. intros hsf H.
      destruct (hsf =? NULL).
      { exec H. injection H as <- <-.
        split; [loc R3 | split; intros Hv; try discriminate Hv].
        apply reports_after; [loc R3 | exact I]. }
      first_call H E4. apply frameupdate_scan_reads_only in E4.
      destruct E4 as (E4 & Hab4). apply locates_only_of_reads in E4.
      pose proof (locates_only_trans _ _ _ R3 E4) as R4.
      assert (Hgo4 :
        forall fu,
          (if fu =? NULL
           then log (Errmsg "couldn't find frameupdate") ;; ret false
           else find_from_frameupdate x86_len fu) w3 = Some (v, w') ->
          located w v w').
      { clear H. intros fu H.
        destruct (fu =? NULL).
        { exec H. injection H as <- <-.
          split; [loc R4 | split; intros Hv; try discriminate Hv].
          apply reports_after; [loc R4 | exact I]. }
        apply find_from_frameupdate_located in H.
        destruct H as (L & Hf & Ht).
        split; [eapply locates_only_trans; eassumption | split].
        - intros Hv. eapply locates_then_reports; [exact R4 | now apply Hf].
        - exact Ht. }
      destruct s1 as [t | |].
      - now apply (Hgo4 t).
      - now apply (Hgo4 NULL).
      - exec H. injection H as <- <-.
        split; [exact R4 | split; intros Hv; try discriminate Hv].
        eapply locates_then_reports; [exact R3 | now apply Hab4]. }
    destruct s0 as [t | |].
    - now apply (Hgo3 t).
    - now apply (Hgo3 NULL).
    - exec H. injection H as <- <-.
      split; [exact R3 | split; intros Hv; try discriminate Hv].
      eapply locates_then_reports; [exact R2 | now apply Hab3]. }
  destruct s as [t | |].
  - now apply (Hgo t).
  - now apply (Hgo NULL).
  - exec H. injection H as <- <-.
    split; [exact R1 | split; intros Hv; try discriminate Hv].
    now apply Hab1.
Qed.

Hypothesis walker : walker_ok x86_len.

(** Runs the first computation of the program of the goal with the
    result [E] says it has. *)
Ltac run_with E := unfold bind at 1; rewrite E.

Ltac returned := eexists; eexists; reflexivity.

Lemma find_floatcall_total fn name w :
  0 <= fn < 2 ^ 32 ->
  exists v w', find_floatcall x86_len fn name w = Some (v, w') /\
               0 <= v < 2 ^ 32.
Proof.
  intros Hfn.
  destruct (scan_terminates_within_reach x86_len walker fn name 384 0 false w)
    as (v & w' & E & _); try lia.
  rewrite ptr_add_0 in E by assumption.
  exists v, w'. split; [exact E |].
  now apply floatcall_scan_in_range in E.
Qed.

Lemma find_from_host_runframe_total hr w :
  0 <= hr < 2 ^ 32 ->
  exists v w', find_from_host_runframe x86_len hr w = Some (v, w').
Proof.
  intros Hr. unfold find_from_host_runframe.
  destruct (accumulate_scan_total x86_len walker hr 384 0 false w)
    as (r & w1 & E); try lia.
  rewrite ptr_add_0 in E by assumption.
  run_with E. destruct r; exec_goal; returned.
Qed.

Lemma find_from_frameupdate_total fu w :
  0 <= fu < 2 ^ 32 ->
  exists v w', find_from_frameupdate x86_len fu w = Some (v, w').
Proof.
  intros Hr. unfold find_from_frameupdate.
  destruct (find_floatcall_total fu "CHostState::State_Run" w Hr)
    as (v1 & w1 & E1 & R1).
  run_with E1. destruct (v1 =? NULL); [exec_goal; returned |].
  destruct (find_floatcall_total v1 "Host_RunFrame" w1 R1)
    as (v2 & w2 & E2 & R2).
  run_with E2. destruct (v2 =? NULL); [exec_goal; returned |].
  destruct (find_floatcall_total v2 "_Host_RunFrame" w2 R2)
    as (v3 & w3 & E3 & R3).
  run_with E3. destruct (v3 =? NULL); [exec_goal; returned |].
  now apply find_from_host_runframe_total.
Qed.

Lemma found_or_null_range r :
  (forall t, r = Found t -> 0 <= t < 2 ^ 32) ->
  0 <= found_or_null r < 2 ^ 32.
Proof.
  intros H. destruct r as [t | |]; cbn [found_or_null].
  - now apply H.
  - now vm_compute.
  - now vm_compute.
Qed.

Lemma find_from_runframe_total rf w :
  0 <= rf < 2 ^ 32 ->
  exists v w', find_from_runframe x86_len vtidx_Frame rf w = Some (v, w').
Proof.
  intros Hr. unfold find_from_runframe.
  destruct (eng_scan_total x86_len walker rf 32 0 w) as (r1 & w1 & E1);
    try lia.
  rewrite ptr_add_0 in E1 by assumption.
  run_with E1.
  assert (Hgo : forall eng, exists v w',
    (if eng =? NULL
     then log (Errmsg "couldn't find eng global object") ;; ret false
     else
       frame <- vcall_slot eng vtidx_Frame ;;
       r2 <- hoststate_scan x86_len 384 frame frame false ;;
       match r2 with
       | Aborted => ret false
       | _ =>
           let hoststate_frame := found_or_null r2 in
           if hoststate_frame =? NULL then
             log (Errmsg "couldn't find HostState_Frame") ;; ret false
           else
             r3 <- frameupdate_scan x86_len 384 hoststate_frame
                     hoststate_frame ;;
             match r3 with
             | Aborted => ret false
             | _ =>
                 let frameupdate := found_or_null r3 in
                 if frameupdate =? NULL then
                   log (Errmsg "couldn't find frameupdate") ;; ret false
                 else find_from_frameupdate x86_len frameupdate
             end
       end) w1 = Some (v, w')).
  { intros eng. destruct (eng =? NULL); [exec_goal; returned |].
    destruct (vcall_slot_total eng vtidx_Frame w1) as (fr & w2 & E2 & R2).
    run_with E2.
    destruct (hoststate_scan_total x86_len walker fr 384 0 false w2)
      as (r2 & w3 & E3); try lia.
    rewrite ptr_add_0 in E3 by assumption.
    run_with E3.
    pose proof (found_or_null_range r2
                  (hoststate_scan_in_range x86_len _ _ _ _ _ _ _ E3)) as R3.
    assert (Hgo3 : forall hsf, 0 <= hsf < 2 ^ 32 -> exists v w',
      (if hsf =? NULL
       then log (Errmsg "couldn't find HostState_Frame") ;; ret false
       else
         r3 <- frameupdate_scan x86_len 384 hsf hsf ;;
         match r3 with
         | Aborted => ret false
         | _ =>
             let frameupdate := found_or_null r3 in
             if frameupdate =? NULL then
               log (Errmsg "couldn't find frameupdate") ;; ret false
             else find_from_frameupdate x86_len frameupdate
         end) w3 = Some (v, w')).
    { intros hsf Rh. destruct (hsf =? NULL); [exec_goal; returned |].
      destruct (frameupdate_scan_total x86_len walker hsf 384 0 w3)
        as (r3 & w4 & E4); try lia.
      rewrite ptr_add_0 in E4 by assumption.
      run_with E4.
      pose proof (found_or_null_range r3
                    (frameupdate_scan_in_range x86_len _ _ _ _ _ _ E4))
        as R4.
      assert (Hgo4 : forall fu, 0 <= fu < 2 ^ 32 -> exists v w',
        (if fu =? NULL
         then log (Errmsg "couldn't find frameupdate") ;; ret false
         else find_from_frameupdate x86_len fu) w4 = Some (v, w')).
      { intros fu Rf. destruct (fu =? NULL); [exec_goal; returned |].
        now apply find_from_frameupdate_total. }
      destruct r3 as [t | |].
      - apply (Hgo4 t). exact R4.
      - apply (Hgo4 NULL). now vm_compute.
      - exec_goal; returned. }
    destruct r2 as [t | |].
    - apply (Hgo3 t). exact R3.
    - apply (Hgo3 NULL). now vm_compute.
    - exec_goal; returned. }
  destruct r1 as [t | |].
  - apply (Hgo t).
  - apply (Hgo NULL).
  - exec_goal; returned.
Qed.

Lemma floatgetter_reads_only fn :
  ensures (floatgetter fn) (fun w v w' => reads_only w w').
Proof.
  intros w v w' H. unfold floatgetter in H. exec H;
    injection H as <- <-; scanned.
Qed.

Lemma floatgetter_total fn w : exists v w', floatgetter fn w = Some (v, w').
Proof. unfold floatgetter. exec_goal; returned. Qed.

Lemma find_Host_AccumulateTime_located :
  ensures (find_Host_AccumulateTime x86_len factory_engine vtidx_RunFrame
             vtidx_Frame) located.
Proof.
  intros w v w' H. unfold find_Host_AccumulateTime in H.
  destruct (factory_engine "VENGINE_HLDS_API_VERSION002" =? NULL);
    exec H; apply find_from_runframe_located in H;
    destruct H as (L & Hf & Ht);
    (split; [| split; [| exact Ht]]).
  - eapply locates_only_trans; [| exact L].
    apply locates_only_of_reads. scanned.
  - intros Hv. eapply locates_then_reports; [| now apply Hf].
    apply locates_only_of_reads. scanned.
  - eapply locates_only_trans; [| exact L].
    apply locates_only_of_reads. scanned.
  - intros Hv. eapply locates_then_reports; [| now apply Hf].
    apply locates_only_of_reads. scanned.
Qed.

Lemma find_Host_AccumulateTime_total w :
  exists v w',
    find_Host_AccumulateTime x86_len factory_engine vtidx_RunFrame
      vtidx_Frame w = Some (v, w').
Proof.
  unfold find_Host_AccumulateTime.
  destruct (factory_engine "VENGINE_HLDS_API_VERSION002" =? NULL);
    exec_goal; apply find_from_runframe_total; apply le32_at_range.
Qed.

(** The same for the functions [INIT] calls. *)
Opaque find_Host_AccumulateTime floatgetter vcall_slot.

Lemma inits_only_of_locates w w' : locates_only w w' -> inits_only w w'.
Proof.
  intros (A & B & C & D & F & G). unfold inits_only. repeat split;
    assumption.
Qed.

Lemma inits_only_trans w w1 w2 :
  inits_only w w1 -> inits_only w1 w2 -> inits_only w w2.
Proof.
  intros (A1 & B1 & F1 & G1) (A2 & B2 & F2 & G2).
  unfold inits_only. repeat split; try congruence.
  eapply logs_trans; eassumption.
Qed.

Lemma inits_only_pointers w w1 rt hf :
  inits_only w w1 ->
  inits_only w (set_host_frametime (set_realtime w1 rt) hf).
Proof. intros H. exact H. Qed.

Lemma inits_only_realtime w w1 rt :
  inits_only w w1 -> inits_only w (set_realtime w1 rt).
Proof. intros H. exact H. Qed.

Lemma inits_only_host_frametime w w1 hf :
  inits_only w w1 -> inits_only w (set_host_frametime w1 hf).
Proof. intros H. exact H. Qed.

Lemma INIT_initialised :
  ensures (INIT x86_len factory_engine vtidx_RunFrame vtidx_Frame
             vtidx_GetRealTime vtidx_HostFrameTime hook_addr
             hook_inline_result)
          (initialised hook_addr hook_inline_result).
Proof.
  intros w v w' H. unfold INIT in H.
  destruct (factory_engine "VENGINETOOL003" =? NULL).
  { exec H. injection H as <- <-.
    unfold initialised. cbn [mem floats skiptime emit].
    repeat split; try discriminate.
    intros _. apply reports_snoc; [apply reads_only_refl | exact I]. }
  first_call H E1. apply vcall_slot_reads_only in E1.
  first_call H E2. apply floatgetter_reads_only in E2.
  pose proof (reads_only_trans _ _ _ E1 E2) as R2.
  apply locates_only_of_reads, inits_only_of_locates in R2.
  unfold bind at 1 in H. cbn [modify] in H.
  first_call H E3. apply vcall_slot_reads_only in E3.
  first_call H E4. apply floatgetter_reads_only in E4.
  pose proof (reads_only_trans _ _ _ E3 E4) as R4.
  apply locates_only_of_reads, inits_only_of_locates in R4.
  pose proof (inits_only_trans _ _ _ (inits_only_realtime _ _ z0 R2) R4)
    as R5.
  unfold bind at 1 in H. cbn [modify] in H.
  first_call H E5. apply find_Host_AccumulateTime_located in E5.
  destruct E5 as (L & Hf & Ht).
  pose proof (inits_only_trans _ _ _
                (inits_only_host_frametime _ _ z2 R5)
                (inits_only_of_locates _ _ L)) as R6.
  destruct b; cbn [negb] in H; exec H; injection H as <- <-.
  - (* located: the hook is installed *)
    destruct R6 as (A & B & C & evs & T & F).
    unfold initialised.
    cbn [mem floats skiptime trace emit set_orig orig_Host_AccumulateTime].
    repeat split; try assumption; try discriminate.
    intros _. exists evs, (orig_Host_AccumulateTime w4).
    repeat split; try assumption.
    + now rewrite T, app_assoc.
    + now apply Ht.
  - (* not located *)
    destruct R6 as (A & B & C & G).
    unfold initialised. cbn [mem floats skiptime emit].
    repeat split; try assumption; try discriminate.
    intros _. destruct G as (evs & T & F).
    exists evs, (Errmsg "couldn't find Host_Accumulate").
    cbn [trace emit]. repeat split; try assumption.
    now rewrite T, app_assoc.
Qed.

Lemma INIT_total w :
  exists v w',
    INIT x86_len factory_engine vtidx_RunFrame vtidx_Frame
      vtidx_GetRealTime vtidx_HostFrameTime hook_addr hook_inline_result w
    = Some (v, w').
Proof.
  unfold INIT.
  destruct (factory_engine "VENGINETOOL003" =? NULL); [exec_goal; returned |].
  destruct (vcall_slot_total (factory_engine "VENGINETOOL003")
              vtidx_GetRealTime w) as (g1 & w1 & E1 & _).
  run_with E1.
  destruct (floatgetter_total g1 w1) as (rt & w2 & E2).
  run_with E2.
  unfold bind at 1. cbn [modify].
  destruct (vcall_slot_total (factory_engine "VENGINETOOL003")
              vtidx_HostFrameTime (set_realtime w2 rt))
    as (g2 & w3 & E3 & _).
  run_with E3.
  destruct (floatgetter_total g2 w3) as (hf & w4 & E4).
  run_with E4.
  unfold bind at 1. cbn [modify].
  destruct (find_Host_AccumulateTime_total (set_host_frametime w4 hf))
    as (ok & w5 & E5).
  run_with E5.
  destruct ok; cbn [negb]; exec_goal; returned.
Qed.

End InitFacts.


(** ** More on the hook callback *)

Section FrameFacts.

Variable engine_code : Z -> float -> (Z -> float) -> (Z -> float).

(** Frames without a positive pending skip all pass through to the
    original function. *)
Lemma run_frames_passthrough dts : forall w,
  fpositive (skiptime w) = false ->
  exists w',
    run_frames engine_code dts w = Some (tt, w') /\
    trace w' =
      trace w ++ map (CallOrig (orig_Host_AccumulateTime w)) dts /\
    floats w' =
      after_frames engine_code (orig_Host_AccumulateTime w) dts (floats w) /\
    skiptime w' = skiptime w /\
    orig_Host_AccumulateTime w' = orig_Host_AccumulateTime w /\
    realtime w' = realtime w /\
    host_frametime w' = host_frametime w.
Proof.
  induction dts as [| dt rest IH]; intros w Hnp.
  - exists w. cbn. rewrite app_nil_r. repeat split.
  - cbn [run_frames]. unfold bind at 1.
    rewrite hook_passthrough_run by assumption.
    destruct (IH (set_floats
                    (emit w (CallOrig (orig_Host_AccumulateTime w) dt))
                    (engine_code (orig_Host_AccumulateTime w) dt (floats w)))
                 Hnp)
      as (w' & E & T & F & S & O & R & Hf).
    exists w'. split; [exact E |].
    cbn [trace floats skiptime orig_Host_AccumulateTime realtime
         host_frametime set_floats emit] in T, F, S, O, R, Hf.
    repeat split; try assumption.
    rewrite T, <- app_assoc. reflexivity.
Qed.

End FrameFacts.

(** X1. Over any sequence of frames a pending skip is applied at most
    once, and only in the first frame: when it is positive the first frame
    adds it to the two tracked floats and clears it without calling the
    original function, and every later frame calls the original function
    with its own [dt], in order; when it is not positive every frame does.
    After at least one frame no positive skip is pending. *)
Theorem frames_apply_skip_once
    (engine_code : Z -> float -> (Z -> float) -> (Z -> float))
    (dts : list float) (w : world) :
  let orig := orig_Host_AccumulateTime w in
  let consumed := fpositive (skiptime w) && negb (Nat.eqb (List.length dts) 0) in
  exists w',
    run_frames engine_code dts w = Some (tt, w') /\
    trace w' =
      trace w ++ map (CallOrig orig) (if consumed then tl dts else dts) /\
    floats w' =
      (if consumed
       then after_frames engine_code orig (tl dts) (skipped w (skiptime w))
       else after_frames engine_code orig dts (floats w)) /\
    skiptime w' = (if consumed then fzero else skiptime w) /\
    (dts <> [] -> fpositive (skiptime w') = false).
Proof.
  cbv zeta.
  destruct dts as [| dt rest].
  - rewrite andb_false_r. exists w. cbn. rewrite app_nil_r.
    repeat split. congruence.
  - cbn [List.length Nat.eqb negb tl]. rewrite andb_true_r.
    destruct (fpositive (skiptime w)) eqn:Hpos.
    + cbn [run_frames]. unfold bind at 1.
      rewrite hook_skip_run by assumption.
      match goal with
      | |- context [run_frames engine_code rest ?w1] =>
          destruct (run_frames_passthrough engine_code rest w1
                      fzero_not_positive)
            as (w' & E & T & F & S & _)
      end.
      exists w'. split; [exact E |].
      cbn [trace floats skiptime orig_Host_AccumulateTime set_floats
           set_skiptime] in T, F, S.
      repeat split; try assumption.
      intros _. rewrite S. reflexivity.
    + destruct (run_frames_passthrough engine_code (dt :: rest) w Hpos)
        as (w' & E & T & F & S & _).
      exists w'. repeat split; try assumption.
      intros _. now rewrite S.
Qed.

(** X2. When both accessors have yielded the same address the hook adds
    a positive pending skip to that one float twice. *)
Theorem aliased_scalars_skip_twice
    (engine_code : Z -> float -> (Z -> float) -> (Z -> float))
    (w : world) (dt : float) :
  fpositive (skiptime w) = true ->
  realtime w = host_frametime w ->
  exists w',
    hook_Host_AccumulateTime engine_code dt w = Some (tt, w') /\
    floats w' (realtime w) =
      fadd (fadd (floats w (realtime w)) (skiptime w)) (skiptime w) /\
    (forall a, a <> realtime w -> floats w' a = floats w a).
Proof.
  intros Hpos Halias. eexists.
  split; [now apply hook_skip_run |].
  cbn [floats set_skiptime set_floats]. rewrite <- Halias.
  split.
  - now rewrite !upd_same.
  - intros a Ha. now rewrite !upd_other by assumption.
Qed.

Lemma aliased_scalars_skip_twice_witness :
  exists w',
    hook_Host_AccumulateTime sample_engine_code f_one
      (alias_world f_two_and_half) = Some (tt, w') /\
    floats w' 0x5000 =
      fadd (fadd f_one f_two_and_half) f_two_and_half /\
    (forall a, a <> 0x5000 ->
               floats w' a = floats (alias_world f_two_and_half) a).
Proof.
  apply (aliased_scalars_skip_twice sample_engine_code
           (alias_world f_two_and_half) f_one); reflexivity.
Defined.

(** ** More on initialisation and the locator rounds *)





(** X5. A successful [INIT] followed by [END]: after reads and errors
    only, the trace ends with the call of [hook_inline] on the located
    target and the call of [unhook_inline] on the trampoline that
    [hook_inline] returned for it. *)
Theorem END_unhooks_the_trampoline
    (x86_len : memory -> Z -> Z) (factory_engine : string -> Z)
    (vtidx_RunFrame vtidx_Frame vtidx_GetRealTime vtidx_HostFrameTime : Z)
    (hook_addr : Z) (hook_inline_result : Z -> Z -> Z) (w : world) :
  walker_ok x86_len ->
  exists ok w1,
    INIT x86_len factory_engine vtidx_RunFrame vtidx_Frame
      vtidx_GetRealTime vtidx_HostFrameTime hook_addr hook_inline_result w
    = Some (ok, w1) /\
    (ok = true ->
     exists evs target w2,
       END w1 = Some (tt, w2) /\
       Forall scan_event evs /\
       target <> NULL /\
       trace w2 =
         trace w ++ evs ++
         [HookInline target hook_addr;
          UnhookInline (hook_inline_result target hook_addr)]).
Proof.
  intros Hwalker.
  destruct (INIT_total x86_len factory_engine vtidx_RunFrame vtidx_Frame
              vtidx_GetRealTime vtidx_HostFrameTime hook_addr
              hook_inline_result Hwalker w) as (ok & w1 & E).
  exists ok, w1. split; [exact E |].
  apply INIT_initialised in E. destruct E as (_ & _ & _ & _ & Hok).
  intros Htrue. destruct (Hok Htrue) as (evs & target & T & F & Hn & O).
  exists evs, target. eexists. split; [reflexivity |].
  split; [assumption |]. split; [assumption |].
  cbn [trace emit]. rewrite T, O, <- !app_assoc. reflexivity.
Qed.

Lemma END_unhooks_the_trampoline_witness :
  exists ok w1,
    INIT sample_x86_len full_factory 0 0 0 1 0x6000 (fun _ _ => 0x8001)
      (boot (engine_memory good_getter) no_floats) = Some (ok, w1) /\
    (ok = true ->
     exists evs target w2,
       END w1 = Some (tt, w2) /\
       Forall scan_event evs /\
       target <> NULL /\
       trace w2 =
         trace (boot (engine_memory good_getter) no_floats) ++ evs ++
         [HookInline target 0x6000;
          UnhookInline ((fun _ _ => 0x8001) target 0x6000)]).
Proof.
  apply (END_unhooks_the_trampoline sample_x86_len full_factory 0 0 0 1
           0x6000 (fun _ _ => 0x8001)
           (boot (engine_memory good_getter) no_floats)).
  exact sample_walker_ok.
Defined.

(** X6. [find_floatcall] only reads: with a walker that sizes every
    instruction it returns, on every 32-bit entry address, a 32-bit value
    and leaves memory, the floats and every global as they were. What it
    logs are reads, followed by at most one decode error; a decode error
    carries the caller's label and the address of an instruction the
    walker cannot size, it is the last event, and the result is then
    [NULL]. *)
Theorem find_floatcall_effects
    (x86_len : memory -> Z -> Z) (fn : Z) (name : string) (w : world) :
  walker_ok x86_len ->
  0 <= fn < 2 ^ 32 ->
  exists v w',
    find_floatcall x86_len fn name w = Some (v, w') /\
    0 <= v < 2 ^ 32 /\
    reads_only w w' /\
    scan_log x86_len name v w w'.
Proof.
  intros Hwalker Hfn.
  destruct (find_floatcall_total x86_len Hwalker fn name w Hfn)
    as (v & w' & E & R).
  exists v, w'. split; [exact E |]. split; [exact R |].
  split.
  - now apply find_floatcall_reads_only in E.
  - unfold find_floatcall in E. now apply floatcall_scan_log in E.
Qed.

Lemma find_floatcall_effects_witness :
  exists v w',
    find_floatcall sample_x86_len 0x1000 "Host_RunFrame"
      (boot blank_memory no_floats) = Some (v, w') /\
    0 <= v < 2 ^ 32 /\
    reads_only (boot blank_memory no_floats) w' /\
    scan_log sample_x86_len "Host_RunFrame" v
      (boot blank_memory no_floats) w'.
Proof.
  apply (find_floatcall_effects sample_x86_len 0x1000 "Host_RunFrame"
           (boot blank_memory no_floats)).
  - exact sample_walker_ok.
  - now vm_compute.
Defined.

Transparent floatgetter.













(** ** What a located function is *)

Section SoundFacts.

Variable x86_len : memory -> Z -> Z.
Variable factory_engine : string -> Z.
Variables vtidx_RunFrame vtidx_Frame : Z.






Transparent find_Host_AccumulateTime vcall_slot.




End SoundFacts.

Opaque find_Host_AccumulateTime floatgetter vcall_slot.





